(** * tunnel-steps: the step router ([src/router.js])

    A shallow embedding of the [Router] class and the properties of its
    step-transition logic.

    Modelling conventions
    - JavaScript values that the router handles as routes are [value]s:
      [undefined], [null] or a string.  Conditions of the form [if (x)] are
      JavaScript truthiness tests, [truthy].
    - [options.steps] is a plain object used as a dictionary: a finite map
      from property keys to steps.  A lookup [steps[v]] converts [v] to a
      property key first ([ToString]), so [steps[undefined]] reads the key
      ["undefined"].  Only own properties are modelled.
    - [options.stepsOrder] is an array of strings; reading it out of range
      (or at a negative index) gives [undefined].
    - A method runs in a state-and-exception monad: the state is the router
      object together with the part of [window] it touches, and a [Throw]
      keeps the mutations made before it.
    - The browser delivers [hashchange] events after the running handler
      has returned, so [setRoute] only writes the location register. *)

From stdpp Require Import gmap strings list.
From Stdlib Require Import Ascii ZArith Lia.

Local Open Scope Z_scope.

(** ** Values *)

Inductive value : Type :=
  | undefined
  | null
  | str (s : string).

Global Instance value_eq_dec : EqDecision value.
Proof. solve_decision. Defined.

(** [if (v)]: only a non-empty string is truthy among the route values. *)
Definition truthy (v : value) : bool :=
  match v with
  | str s => negb (String.eqb s "")
  | _ => false
  end.

(** Conversion to a string, as done for a property key or for
    [window.location.hash = v]. *)
Definition ToString (v : value) : string :=
  match v with
  | undefined => "undefined"
  | null => "null"
  | str s => s
  end.

(** [a === b] and [a !== b]. *)
Definition strict_eq (a b : value) : bool := bool_decide (a = b).
Definition strict_ne (a b : value) : bool := negb (strict_eq a b).

(** [s.split(c)] *)
Fixpoint split (c : ascii) (s : string) : list string :=
  match s with
  | EmptyString => [EmptyString]
  | String a s' =>
      if Ascii.eqb a c then EmptyString :: split c s'
      else match split c s' with
           | h :: t => String a h :: t
           | [] => [String a EmptyString]
           end
  end.

(** [arr[i]] for an array of strings and an integer index. *)
Definition array_get (arr : list string) (i : Z) : value :=
  if 0 <=? i then from_option str undefined (arr !! Z.to_nat i)
  else undefined.

(** [arr.findIndex(p)] *)
Definition findIndex (P : string → Prop) `{∀ x, Decision (P x)}
    (arr : list string) : Z :=
  match list_find P arr with
  | Some (i, _) => Z.of_nat i
  | None => -1
  end.

(** ** Outcomes *)

Inductive error : Type :=
  | TypeError   (* property read on [undefined] *)
  | StepError.  (* thrown by a step or by the cache function *)

Inductive Res (A : Type) : Type :=
  | Ok (a : A)
  | Throw (e : error).
Arguments Ok {A} a.
Arguments Throw {A} e.

(** ** Steps and options *)

(** The object returned by [canTheStepBeDisplayed()] and by
    [checkIfTheStepCanBeDisplay]. *)
Module Datas.
Record t : Type := mk {
  canBeDisplayed : bool;
  fallbackRoute : value
}.
End Datas.

(** A step, as far as the router reads it: two optional properties and
    the outcome of its three methods. *)
Module Step.
Record t : Type := mk {
  route : value;
  fallbackRoute : value;
  canTheStepBeDisplayed : Res Datas.t;
  render : value → Res unit;
  destroy : Res unit
}.
End Step.

Module Options.
Record t : Type := mk {
  defaultRoute : value;
  stepsOrder : list string;
  steps : gmap string Step.t;
  (* [None]: a falsy result; [Some m]: an object whose property [r]
     holds an entry with the given [datas] *)
  getDatasFromCache : list value → Res (option (gmap string value))
}.
End Options.

(** [steps[v]] *)
Definition steps_get (o : Options.t) (v : value) : option Step.t :=
  Options.steps o !! ToString v.

(** ** Sequencer: [getIndexFromRoute], [getNextStepRoute],
    [getPreviousStepRoute] *)

Definition getIndexFromRoute (o : Options.t) (route : value) : Z :=
  findIndex (λ currentRoute, str currentRoute = route) (Options.stepsOrder o).

Definition getPreviousStepRoute (o : Options.t) (route : value) : value :=
  let nextStep :=
    steps_get o (array_get (Options.stepsOrder o) (getIndexFromRoute o route - 1)) in
  match nextStep with
  | Some nextStep => Step.route nextStep
  | None => str "end"
  end.

Definition getNextStepRoute (o : Options.t) (route : value) : value :=
  let nextStep :=
    steps_get o (array_get (Options.stepsOrder o) (getIndexFromRoute o route + 1)) in
  match nextStep with
  | Some nextStep => Step.route nextStep
  | None => str "end"
  end.

(** ** The router object and the window *)

(** A [hashchange] event, as far as the router reads it.  [oldURL] is
    [undefined] where the browser does not provide it. *)
Module Event.
Record t : Type := mk { oldURL : value }.
End Event.

(** [this.stepRedirected]: [{}] after construction ([redirect] absent),
    then [{redirect, previousRoute}]. *)
Module Redirected.
Record t : Type := mk {
  redirect : option bool;
  previousRoute : value
}.
Definition empty : t := mk None undefined.
End Redirected.

Module Router.
Record t : Type := mk {
  options : Options.t;
  reverseNavigation : bool;
  stepCreated : bool;
  applicationReady : bool;
  stepRedirected : Redirected.t;
  currentRoute : value;
  previousRoute : value;
  onHashChanged : option nat
}.

Definition set_reverseNavigation (b : bool) (r : t) : t :=
  mk (options r) b (stepCreated r) (applicationReady r) (stepRedirected r)
     (currentRoute r) (previousRoute r) (onHashChanged r).
Definition set_stepCreated (b : bool) (r : t) : t :=
  mk (options r) (reverseNavigation r) b (applicationReady r) (stepRedirected r)
     (currentRoute r) (previousRoute r) (onHashChanged r).
Definition set_applicationReady (b : bool) (r : t) : t :=
  mk (options r) (reverseNavigation r) (stepCreated r) b (stepRedirected r)
     (currentRoute r) (previousRoute r) (onHashChanged r).
Definition set_stepRedirected (m : Redirected.t) (r : t) : t :=
  mk (options r) (reverseNavigation r) (stepCreated r) (applicationReady r) m
     (currentRoute r) (previousRoute r) (onHashChanged r).
Definition set_currentRoute (v : value) (r : t) : t :=
  mk (options r) (reverseNavigation r) (stepCreated r) (applicationReady r)
     (stepRedirected r) v (previousRoute r) (onHashChanged r).
Definition set_previousRoute (v : value) (r : t) : t :=
  mk (options r) (reverseNavigation r) (stepCreated r) (applicationReady r)
     (stepRedirected r) (currentRoute r) v (onHashChanged r).
Definition set_onHashChanged (h : option nat) (r : t) : t :=
  mk (options r) (reverseNavigation r) (stepCreated r) (applicationReady r)
     (stepRedirected r) (currentRoute r) (previousRoute r) h.
End Router.

(** The part of [window] the router touches: [location.hash] (empty, or
    ["#"] followed by the fragment) and the registered [hashchange]
    listeners.  Percent-encoding of the fragment is not modelled. *)
Module Window.
Record t : Type := mk {
  hash : string;
  listeners : list nat
}.
End Window.

(** Calls that leave the router, in the order they are made. *)
Inductive call : Type :=
  | CanTheStepBeDisplayed (route : string)
  | GetDatasFromCache (routes : list value)
  | Render (route : string) (datas : value) (returned : bool)
  | Destroy (route : string) (returned : bool)
  | SetHash (v : value)
  | AddEventListener (h : nat)
  | RemoveEventListener (h : option nat).

Record State : Type := mkState {
  this : Router.t;
  window : Window.t;
  calls : list call
}.

(** ** The state-and-exception monad *)

Definition M (A : Type) : Type := State → Res A * State.

Global Instance M_ret : MRet M := λ A a σ, (Ok a, σ).
Global Instance M_bind : MBind M := λ A B f m σ,
  match m σ with
  | (Ok a, σ') => f a σ'
  | (Throw e, σ') => (Throw e, σ')
  end.

Definition throw {A} (e : error) : M A := λ σ, (Throw e, σ).
Definition lift {A} (r : Res A) : M A := λ σ, (r, σ).
Definition get_this : M Router.t := λ σ, (Ok (this σ), σ).
Definition update_this (f : Router.t → Router.t) : M unit :=
  λ σ, (Ok (), mkState (f (this σ)) (window σ) (calls σ)).
Definition get_window : M Window.t := λ σ, (Ok (window σ), σ).
Definition put_window (w : Window.t) : M unit :=
  λ σ, (Ok (), mkState (this σ) w (calls σ)).
Definition record (c : call) : M unit :=
  λ σ, (Ok (), mkState (this σ) (window σ) (calls σ ++ [c])).
Definition when (b : bool) (m : M unit) : M unit := if b then m else mret ().

Definition returned {A} (r : Res A) : bool :=
  match r with Ok _ => true | Throw _ => false end.

(** ** Methods of [Router] *)

(** The object built by [new Router(options)]; [currentRoute] and
    [previousRoute] are not assigned yet. *)
Definition constructor (options : Options.t) : Router.t :=
  Router.mk options false false false Redirected.empty undefined undefined None.

Definition substr1 (s : string) : string :=
  match s with
  | EmptyString => EmptyString
  | String _ s' => s'
  end.

(** [window.location.hash.substr(1)] *)
Definition getRoute : M string :=
  w ← get_window; mret (substr1 (Window.hash w)).

(** [window.location.hash = route]: a leading ["#"] of the new value is
    dropped, and the register reads empty when the fragment is empty. *)
Definition hash_of (v : value) : string :=
  let input := ToString v in
  let fragment :=
    match input with
    | String "#"%char rest => rest
    | _ => input
    end in
  if String.eqb fragment "" then "" else String "#"%char fragment.

Definition setRoute (route : value) : M unit :=
  w ← get_window;
  record (SetHash route);;
  put_window (Window.mk (hash_of route) (Window.listeners w)).

(** [e && e.oldURL ? e.oldURL.split('#')[1] : null] *)
Definition getPreviousRoute (e : option Event.t) : value :=
  match e with
  | Some e =>
      match Event.oldURL e with
      | str url =>
          if truthy (str url) then array_get (split "#"%char url) 1 else null
      | _ => null
      end
  | None => null
  end.

Definition checkIfTheStepCanBeDisplay (route : string) (event : option Event.t)
    : M Datas.t :=
  r ← get_this;
  let o := Router.options r in
  match steps_get o (str route) with
  | Some step =>
      record (CanTheStepBeDisplayed route);;
      lift (Step.canTheStepBeDisplayed step)
  | None =>
      let fallbackRoute := Options.defaultRoute o in
      let previousRoute := getPreviousRoute event in
      fallbackRoute ←
        (if truthy previousRoute then
           match steps_get o previousRoute with
           | None => throw TypeError
           | Some previousStep =>
               if truthy (Step.fallbackRoute previousStep)
               then mret (Step.fallbackRoute previousStep)
               else mret fallbackRoute
           end
         else mret fallbackRoute);
      mret (Datas.mk false fallbackRoute)
  end.

(** [stepDatas ? stepDatas[route].datas : null] *)
Definition datas_of (stepDatas : option (gmap string value)) (route : value)
    : Res value :=
  match stepDatas with
  | Some m =>
      match m !! ToString route with
      | Some datas => Ok datas
      | None => Throw TypeError
      end
  | None => Ok null
  end.

Definition createStep (route : value) : M unit :=
  r ← get_this;
  let o := Router.options r in
  record (GetDatasFromCache [route]);;
  stepDatas ← lift (Options.getDatasFromCache o [route]);
  match steps_get o route with
  | None => throw TypeError
  | Some step =>
      datas ← lift (datas_of stepDatas route);
      record (Render (ToString route) datas (returned (Step.render step datas)));;
      lift (Step.render step datas);;
      r ← get_this;
      when (negb (Router.applicationReady r))
        (update_this (Router.set_applicationReady true))
  end.

Definition destroyStep (route : value) : M unit :=
  r ← get_this;
  match steps_get (Router.options r) route with
  | None => throw TypeError
  | Some step =>
      record (Destroy (ToString route) (returned (Step.destroy step)));;
      lift (Step.destroy step)
  end.

Definition redirect_pending (r : Router.t) : bool :=
  default false (Redirected.redirect (Router.stepRedirected r)).

Definition stepCanBeDisplayed (e : option Event.t) : M unit :=
  match e with
  | Some _ =>
      r ← get_this;
      update_this (Router.set_previousRoute
        (if redirect_pending r
         then Redirected.previousRoute (Router.stepRedirected r)
         else getPreviousRoute e));;
      r ← get_this;
      when (truthy (Router.previousRoute r))
        (destroyStep (Router.previousRoute r);;
         r ← get_this;
         createStep (Router.currentRoute r);;
         update_this (Router.set_stepCreated true))
  | None => mret ()
  end;;
  r ← get_this;
  when (negb (Router.stepCreated r)) (createStep (Router.currentRoute r));;
  r ← get_this;
  when (redirect_pending r)
    (update_this (Router.set_stepRedirected
       (Redirected.mk (Some false)
          (Redirected.previousRoute (Router.stepRedirected r))))).

Definition stepCantBeDisplayed (e : option Event.t) (fallbackRoute : value)
    : M unit :=
  update_this (Router.set_stepRedirected
    (Redirected.mk (Some true) (getPreviousRoute e)));;
  update_this (Router.set_previousRoute null);;
  when (truthy fallbackRoute) (setRoute fallbackRoute).

Definition hashChanged (e : option Event.t) : M unit :=
  route ← getRoute;
  datas ← checkIfTheStepCanBeDisplay route e;
  update_this (Router.set_currentRoute (str route));;
  if Datas.canBeDisplayed datas
  then stepCanBeDisplayed e
  else stepCantBeDisplayed e (Datas.fallbackRoute datas).

(** [addEvents]: a fresh bound handler is registered on the window. *)
Definition addEvents : M unit :=
  w ← get_window;
  let h := S (foldr Nat.max 0%nat (Window.listeners w)) in
  update_this (Router.set_onHashChanged (Some h));;
  record (AddEventListener h);;
  put_window (Window.mk (Window.hash w) (Window.listeners w ++ [h])).

Definition init : M unit :=
  addEvents;;
  route ← getRoute;
  r ← get_this;
  update_this (Router.set_currentRoute
    (if String.eqb route "" then Options.defaultRoute (Router.options r)
     else str route));;
  if String.eqb route ""
  then r ← get_this; setRoute (Router.currentRoute r)
  else hashChanged None.

Definition triggerNext : M bool :=
  update_this (Router.set_reverseNavigation false);;
  r ← get_this;
  update_this (Router.set_previousRoute (Router.currentRoute r));;
  r ← get_this;
  let nextRoute := getNextStepRoute (Router.options r) (Router.currentRoute r) in
  if strict_ne nextRoute (str "end")
  then setRoute nextRoute;; mret true
  else mret false.

Definition triggerPrevious : M unit :=
  update_this (Router.set_reverseNavigation true);;
  r ← get_this;
  update_this (Router.set_previousRoute (Router.currentRoute r));;
  r ← get_this;
  let nextRoute := getPreviousStepRoute (Router.options r) (Router.previousRoute r) in
  setRoute nextRoute.

(** [destroy]: the router's own teardown. *)
Definition destroy : M unit :=
  r ← get_this;
  w ← get_window;
  record (RemoveEventListener (Router.onHashChanged r));;
  put_window (Window.mk (Window.hash w)
    (filter (λ h, Some h ≠ Router.onHashChanged r) (Window.listeners w))).

(** ** Runs *)

(** What can happen to a router between two states: one of its public
    methods is called, the location changes under the user's hand, or the
    browser runs the [hashchange] listener. *)
Inductive op : Type :=
  | Init
  | TriggerNext
  | TriggerPrevious
  | Teardown
  | Location (hash : string)
  | HashChanged (e : option Event.t).

Definition exec (o : op) : M unit :=
  match o with
  | Init => init
  | TriggerNext => triggerNext;; mret ()
  | TriggerPrevious => triggerPrevious
  | Teardown => destroy
  | Location hash =>
      w ← get_window; put_window (Window.mk hash (Window.listeners w))
  | HashChanged e => hashChanged e
  end.

(** An exception ends the running method only; the page goes on. *)
Fixpoint run (ops : list op) (σ : State) : State :=
  match ops with
  | [] => σ
  | o :: ops => run ops (snd (exec o σ))
  end.

(** A page showing [hash] on which [new Router(options)] has just run. *)
Definition fresh (options : Options.t) (hash : string) : State :=
  mkState (constructor options) (Window.mk hash []) [].

Definition successful_render (c : call) : bool :=
  match c with
  | Render _ _ true => true
  | _ => false
  end.

Definition lifecycle_call (c : call) : bool :=
  match c with
  | Render _ _ _ | Destroy _ _ => true
  | _ => false
  end.

(** ** Registries *)

(** The registry the specification has in mind: routes are unique, each
    one names a step whose [route] property is its key, and neither
    ["undefined"] (the key read for a missing array entry) nor the
    sentinel ["end"] is taken by a step. *)
Definition registry_wf (o : Options.t) : Prop :=
  NoDup (Options.stepsOrder o)
  ∧ Forall (λ r, Step.route <$> Options.steps o !! r = Some (str r))
      (Options.stepsOrder o)
  ∧ Options.steps o !! "undefined" = None
  ∧ "end" ∉ Options.stepsOrder o.

Global Instance registry_wf_dec o : Decision (registry_wf o).
Proof. unfold registry_wf. apply _. Defined.

(** A step that can always be displayed and whose methods return. *)
Definition plain_step (route : string) : Step.t :=
  Step.mk (str route) undefined (Ok (Datas.mk true undefined))
    (λ _, Ok ()) (Ok ()).

Definition event (oldURL : string) : option Event.t :=
  Some (Event.mk (str oldURL)).

(** [stepsOrder = ["a", "b", "c"]] with a step per route, the default
    route ["a"] and no cache. *)
Definition abc : Options.t :=
  Options.mk (str "a") ["a"; "b"; "c"]
    (list_to_map
       [("a", plain_step "a"); ("b", plain_step "b"); ("c", plain_step "c")])
    (λ _, Ok None).

(** The same steps with the constructor's defaults for the rest:
    [defaultRoute: null]. *)
Definition abc_no_default : Options.t :=
  Options.mk null (Options.stepsOrder abc) (Options.steps abc)
    (Options.getDatasFromCache abc).

(** Step ["b"] carries no [route] property. *)
Definition abc_b_without_route : Options.t :=
  Options.mk (str "a") ["a"; "b"; "c"]
    (list_to_map
       [("a", plain_step "a");
        ("b", Step.mk undefined undefined (Ok (Datas.mk true undefined))
                (λ _, Ok ()) (Ok ()));
        ("c", plain_step "c")])
    (λ _, Ok None).

(** Step ["b"] calls itself ["c"]. *)
Definition abc_b_mislabelled : Options.t :=
  Options.mk (str "a") ["a"; "b"; "c"]
    (list_to_map
       [("a", plain_step "a"); ("b", plain_step "c"); ("c", plain_step "c")])
    (λ _, Ok None).

(** ** Vocabulary of the statements *)

(** The previous route a handler resolves for its event, the value
    assigned to [this.previousRoute] at the top of [stepCanBeDisplayed]:
    the one remembered by a pending redirect marker, else the one parsed
    from the event. *)
Definition resolved_previousRoute (r : Router.t) (e : option Event.t) : value :=
  if redirect_pending r
  then Redirected.previousRoute (Router.stepRedirected r)
  else getPreviousRoute e.

(** [m] only appends to the call log, and [applicationReady] after it is
    [applicationReady] before it or a render that returned in between. *)
Definition tracks {A} (m : M A) : Prop :=
  ∀ σ, ∃ new,
    calls (snd (m σ)) = calls σ ++ new
    ∧ Router.applicationReady (this (snd (m σ)))
      = Router.applicationReady (this σ) || existsb successful_render new.

(** [s.includes(c)] for a single character. *)
Fixpoint includes (c : ascii) (s : string) : bool :=
  match s with
  | EmptyString => false
  | String a s' => Ascii.eqb a c || includes c s'
  end.

(** [I] holds after [m] whenever it holds before, whether [m] returns or
    throws. *)
Definition stable {A} (I : State → Prop) (m : M A) : Prop :=
  ∀ σ, I σ → I (snd (m σ)).

(** The calls a method has added to the log of [σ]. *)
Definition new_calls {A} (m : M A) (σ : State) : list call :=
  skipn (length (calls σ)) (calls (snd (m σ))).

(** A string less one leading ["#"], as the hash setter takes it. *)
Definition drop_leading_hash (input : string) : string :=
  match input with
  | String "#"%char rest => rest
  | _ => input
  end.

(** ** Where the model is the code *)

(** The names every plain object inherits from [Object.prototype].  The
    code reads [steps[route]] through the prototype chain, so it finds
    something truthy under these names even when no step is registered
    there; [steps_get] looks at own properties only. *)
Definition Object_prototype_names : list string :=
  ["constructor"; "__proto__"; "hasOwnProperty"; "isPrototypeOf";
   "propertyIsEnumerable"; "toLocaleString"; "toString"; "valueOf";
   "__defineGetter__"; "__defineSetter__"; "__lookupGetter__";
   "__lookupSetter__"].

Definition inherited (key : string) : bool :=
  bool_decide (key ∈ Object_prototype_names).

(** The characters a location keeps as written in its fragment:
    printable ASCII other than the space, the double quote, [<], [>] and
    the backtick.  Any other character is percent-encoded (or, for a tab
    or a newline, dropped) when [location.hash] is assigned, which
    [hash_of] does not model. *)
Definition kept_verbatim (c : ascii) : bool :=
  let n := nat_of_ascii c in
  (33 <=? n)%nat && (n <=? 126)%nat
  && negb (n =? 34)%nat && negb (n =? 60)%nat
  && negb (n =? 62)%nat && negb (n =? 96)%nat.

Fixpoint written_verbatim (s : string) : bool :=
  match s with
  | EmptyString => true
  | String c s' => kept_verbatim c && written_verbatim s'
  end.

(** Two steps, the second of which refuses to be displayed and sends to
    the first; no default route. *)
Definition ab_b_refuses : Options.t :=
  Options.mk null ["a"; "b"]
    (list_to_map
       [("a", plain_step "a");
        ("b", Step.mk (str "b") undefined (Ok (Datas.mk false (str "a")))
                (λ _, Ok ()) (Ok ()))])
    (λ _, Ok None).

(** * Properties *)

(** ** Arrays and registries *)

Lemma array_get_nat (arr : list string) (i : nat) :
  array_get arr (Z.of_nat i) = from_option str undefined (arr !! i).
Proof.
  unfold array_get. destruct (Z.leb_spec 0 (Z.of_nat i)); [|lia].
  by rewrite Nat2Z.id.
Qed.

Lemma array_get_negative (arr : list string) (i : Z) :
  i < 0 → array_get arr i = undefined.
Proof. intros Hi. unfold array_get. by destruct (Z.leb_spec 0 i); [lia|]. Qed.

Lemma array_get_succ (arr : list string) (i : nat) :
  array_get arr (Z.of_nat i + 1) = from_option str undefined (arr !! S i).
Proof. by rewrite <- array_get_nat, Nat2Z.inj_succ. Qed.

Lemma array_get_pred (arr : list string) (i : nat) :
  array_get arr (Z.of_nat (S i) - 1) = from_option str undefined (arr !! i).
Proof.
  rewrite <- array_get_nat. f_equal. lia.
Qed.

Section Sequencer.
Variable o : Options.t.

(** [findIndex] stops at the first match. *)
Lemma getIndexFromRoute_first (i : nat) (r : string) :
  Options.stepsOrder o !! i = Some r →
  (∀ j, (j < i)%nat → Options.stepsOrder o !! j ≠ Some r) →
  getIndexFromRoute o (str r) = Z.of_nat i.
Proof.
  intros Hi Hfirst. unfold getIndexFromRoute, findIndex.
  destruct (list_find _ _) as [[j y]|] eqn:Hfind.
  - apply list_find_Some in Hfind as (Hj & Hy & Hmin).
    injection Hy as ->.
    destruct (lt_eq_lt_dec j i) as [[Hlt| ->]|Hgt]; [|done|].
    + by destruct (Hfirst j Hlt).
    + by destruct (Hmin i r Hi Hgt).
  - apply list_find_None in Hfind.
    rewrite Forall_lookup in Hfind. by destruct (Hfind i r Hi).
Qed.

Lemma getIndexFromRoute_unique (i : nat) (r : string) :
  NoDup (Options.stepsOrder o) →
  Options.stepsOrder o !! i = Some r →
  getIndexFromRoute o (str r) = Z.of_nat i.
Proof.
  intros Hnd Hi. apply getIndexFromRoute_first; [done|].
  intros j Hj Hjr. pose proof (NoDup_lookup _ _ _ _ Hnd Hjr Hi). lia.
Qed.

(** A route that is not in [stepsOrder] has index [-1]. *)
Lemma getIndexFromRoute_absent (route : value) :
  (∀ r, route = str r → r ∉ Options.stepsOrder o) →
  getIndexFromRoute o route = -1.
Proof.
  intros Habs. unfold getIndexFromRoute, findIndex.
  destruct (list_find _ _) as [[j y]|] eqn:Hfind; [|done].
  apply list_find_Some in Hfind as (Hj & Hy & _).
  destruct (Habs y); [done|]. by eapply list_elem_of_lookup_2.
Qed.

Lemma registered_step (r : string) :
  registry_wf o → r ∈ Options.stepsOrder o →
  ∃ s, steps_get o (str r) = Some s ∧ Step.route s = str r.
Proof.
  intros (_ & Hreg & _) Hr. rewrite Forall_forall in Hreg.
  specialize (Hreg r Hr). unfold steps_get. simpl.
  destruct (Options.steps o !! r) as [s|]; [|done].
  injection Hreg as Hs. eauto.
Qed.

(** On a well-formed registry, the route after an entry that has a
    successor is that successor. *)
Lemma getNextStepRoute_interior (i : nat) (r nxt : string) :
  registry_wf o →
  Options.stepsOrder o !! i = Some r →
  Options.stepsOrder o !! S i = Some nxt →
  getNextStepRoute o (str r) = str nxt.
Proof.
  intros Hwf Hi HSi. unfold getNextStepRoute.
  rewrite (getIndexFromRoute_unique i r), array_get_succ, HSi; [|apply Hwf|done].
  destruct (registered_step nxt Hwf) as (s & Hget & Hs);
    [by eapply list_elem_of_lookup_2|].
  simpl. by rewrite Hget.
Qed.

(** On a well-formed registry, the last entry has no next route. *)
Lemma getNextStepRoute_last (i : nat) (r : string) :
  registry_wf o →
  Options.stepsOrder o !! i = Some r →
  S i = length (Options.stepsOrder o) →
  getNextStepRoute o (str r) = str "end".
Proof.
  intros Hwf Hi Hlast. unfold getNextStepRoute.
  rewrite (getIndexFromRoute_unique i r), array_get_succ; [|apply Hwf|done].
  rewrite lookup_ge_None_2 by lia. simpl.
  destruct Hwf as (_ & _ & Hundef & _). unfold steps_get. simpl.
  by rewrite Hundef.
Qed.

Lemma getPreviousStepRoute_interior (i : nat) (prev r : string) :
  registry_wf o →
  Options.stepsOrder o !! i = Some prev →
  Options.stepsOrder o !! S i = Some r →
  getPreviousStepRoute o (str r) = str prev.
Proof.
  intros Hwf Hi HSi. unfold getPreviousStepRoute.
  rewrite (getIndexFromRoute_unique (S i) r), array_get_pred, Hi; [|apply Hwf|done].
  destruct (registered_step prev Hwf) as (s & Hget & Hs);
    [by eapply list_elem_of_lookup_2|].
  simpl. by rewrite Hget.
Qed.

(** Before the first entry there is only the key ["undefined"]. *)
Lemma getPreviousStepRoute_first (r : string) :
  Options.stepsOrder o !! 0%nat = Some r →
  Options.steps o !! "undefined" = None →
  getPreviousStepRoute o (str r) = str "end".
Proof.
  intros H0 Hundef. unfold getPreviousStepRoute.
  rewrite (getIndexFromRoute_first 0 r) by (done || (intros; lia)).
  rewrite array_get_negative by lia.
  unfold steps_get. simpl. by rewrite Hundef.
Qed.

(** A route outside [stepsOrder] is sent to the step of the first entry:
    its index [-1] plus one is [0]. *)
Lemma getNextStepRoute_absent (route : value) (first : string) (s : Step.t) :
  (∀ r, route = str r → r ∉ Options.stepsOrder o) →
  Options.stepsOrder o !! 0%nat = Some first →
  Options.steps o !! first = Some s →
  getNextStepRoute o route = Step.route s.
Proof.
  intros Habs H0 Hs. unfold getNextStepRoute.
  rewrite getIndexFromRoute_absent by done.
  change (-1 + 1) with (Z.of_nat 0). rewrite array_get_nat, H0.
  unfold steps_get. simpl. by rewrite Hs.
Qed.

(** The sibling path does return the sentinel there. *)
Lemma getPreviousStepRoute_absent (route : value) :
  (∀ r, route = str r → r ∉ Options.stepsOrder o) →
  Options.steps o !! "undefined" = None →
  getPreviousStepRoute o route = str "end".
Proof.
  intros Habs Hundef. unfold getPreviousStepRoute.
  rewrite getIndexFromRoute_absent, array_get_negative by (done || lia).
  unfold steps_get. simpl. by rewrite Hundef.
Qed.
End Sequencer.

(** C2 (the code departs from the claim) - [getNextStepRoute] on a route
    that is absent from the registry: on the three-step registry
    [a, b, c], the unknown route ["zzz"] has index [-1], so the entry read
    is [stepsOrder[0]] and the result is the first route ["a"], not the
    sentinel ["end"].  [getPreviousStepRoute] returns ["end"] for the same
    route. *)
Theorem getNextStepRoute_absent_is_first :
  registry_wf abc
  ∧ ("zzz" ∉ Options.stepsOrder abc)
  ∧ getIndexFromRoute abc (str "zzz") = (-1)
  ∧ getNextStepRoute abc (str "zzz") = str "a"
  ∧ getPreviousStepRoute abc (str "zzz") = str "end".
Proof.
  split; [by apply (bool_decide_unpack _)|].
  split; [by apply (bool_decide_unpack _)|].
  by vm_compute.
Qed.

(** C8 - next followed by previous is a round trip: on a well-formed
    registry, for every route [R] of [stepsOrder] whose next route is not
    the sentinel ["end"], [getPreviousStepRoute (getNextStepRoute R)] is
    [R]. *)
Theorem previous_of_next (o : Options.t) (R : string) :
  registry_wf o →
  R ∈ Options.stepsOrder o →
  getNextStepRoute o (str R) ≠ str "end" →
  getPreviousStepRoute o (getNextStepRoute o (str R)) = str R.
Proof.
  intros Hwf HR Hend.
  apply list_elem_of_lookup_1 in HR as [i Hi].
  destruct (Options.stepsOrder o !! S i) as [nxt|] eqn:HSi.
  - rewrite (getNextStepRoute_interior o i R nxt) by done.
    by apply (getPreviousStepRoute_interior o i).
  - destruct Hend. apply (getNextStepRoute_last o i); [done..|].
    apply lookup_ge_None_1 in HSi. apply lookup_lt_Some in Hi. lia.
Qed.

Lemma previous_of_next_witness :
  getPreviousStepRoute abc (getNextStepRoute abc (str "a")) = str "a".
Proof.
  apply (previous_of_next abc "a").
  - by apply (bool_decide_unpack _).
  - by apply (bool_decide_unpack _).
  - by vm_compute.
Defined.

(** C10 - the Sequencer answers with the [route] property of the
    neighbouring step object, not with the [stepsOrder] entry: whenever the
    entry next to (resp. before) [R]'s index names a registered step [S],
    [getNextStepRoute R] (resp. [getPreviousStepRoute R]) is [S.route].
    When [S] has no [route] property the result is [undefined] rather than
    ["end"], and when [S.route] differs from the key the result is not the
    neighbouring entry of [stepsOrder]. *)
Theorem sequencer_reads_route_property :
  (∀ (o : Options.t) (R : value) (S : Step.t),
     steps_get o (array_get (Options.stepsOrder o) (getIndexFromRoute o R + 1))
       = Some S →
     getNextStepRoute o R = Step.route S)
  ∧ (∀ (o : Options.t) (R : value) (S : Step.t),
     steps_get o (array_get (Options.stepsOrder o) (getIndexFromRoute o R - 1))
       = Some S →
     getPreviousStepRoute o R = Step.route S)
  ∧ (getNextStepRoute abc_b_without_route (str "a") = undefined
     ∧ getPreviousStepRoute abc_b_without_route (str "c") = undefined)
  ∧ (Options.stepsOrder abc_b_mislabelled !! 1%nat = Some "b"
     ∧ getNextStepRoute abc_b_mislabelled (str "a") = str "c"
     ∧ getPreviousStepRoute abc_b_mislabelled (str "c") = str "c").
Proof.
  split; [|split; [|split]].
  - intros o R S HS. unfold getNextStepRoute. by rewrite HS.
  - intros o R S HS. unfold getPreviousStepRoute. by rewrite HS.
  - by vm_compute.
  - by vm_compute.
Qed.

Lemma sequencer_reads_route_property_witness :
  getNextStepRoute abc (str "a") = Step.route (plain_step "b")
  ∧ getPreviousStepRoute abc (str "c") = Step.route (plain_step "b").
Proof.
  destruct sequencer_reads_route_property as (Hnext & Hprev & _).
  split.
  - apply (Hnext abc (str "a") (plain_step "b")). by vm_compute.
  - apply (Hprev abc (str "c") (plain_step "b")). by vm_compute.
Defined.

(** ** Running a method symbolically *)

Arguments steps_get : simpl never.
Arguments getPreviousRoute : simpl never.
Arguments hash_of : simpl never.
Arguments datas_of : simpl never.
Arguments truthy : simpl never.
Arguments getNextStepRoute : simpl never.
Arguments getPreviousStepRoute : simpl never.

(** Unfold the monad and the record accessors, nothing else. *)
Ltac msimpl :=
  cbv beta iota zeta delta
    [mbind M_bind mret M_ret update_this get_this get_window put_window
     record lift throw when];
  cbn [this window calls fst snd returned
       Router.options Router.reverseNavigation Router.stepCreated
       Router.applicationReady Router.stepRedirected Router.currentRoute
       Router.previousRoute Router.onHashChanged
       Router.set_reverseNavigation Router.set_stepCreated
       Router.set_applicationReady Router.set_stepRedirected
       Router.set_currentRoute Router.set_previousRoute
       Router.set_onHashChanged
       Redirected.redirect Redirected.previousRoute
       Window.hash Window.listeners negb default redirect_pending].

(** ** Transition Gate: [checkIfTheStepCanBeDisplay] *)

Section Gate.
Variables (σ : State) (route : string) (e : option Event.t).
Abbreviation o := (Router.options (this σ)).

(** A registered candidate: the step's own answer. *)
Lemma gate_registered (step : Step.t) :
  steps_get o (str route) = Some step →
  checkIfTheStepCanBeDisplay route e σ
  = (Step.canTheStepBeDisplayed step,
     mkState (this σ) (window σ) (calls σ ++ [CanTheStepBeDisplayed route])).
Proof.
  intros Hstep. unfold checkIfTheStepCanBeDisplay. msimpl.
  rewrite Hstep. msimpl. by destruct (Step.canTheStepBeDisplayed step).
Qed.

(** An unknown candidate and no previous route in the event: the
    default route. *)
Lemma gate_unknown_no_previous :
  steps_get o (str route) = None →
  truthy (getPreviousRoute e) = false →
  checkIfTheStepCanBeDisplay route e σ
  = (Ok (Datas.mk false (Options.defaultRoute o)), σ).
Proof.
  intros Hstep Hprev. unfold checkIfTheStepCanBeDisplay. msimpl.
  rewrite Hstep, Hprev. msimpl. by destruct σ.
Qed.

(** An unknown candidate and a registered previous route: that step's
    [fallbackRoute] if it has one, else the default route. *)
Lemma gate_unknown_previous_registered (previousStep : Step.t) :
  steps_get o (str route) = None →
  truthy (getPreviousRoute e) = true →
  steps_get o (getPreviousRoute e) = Some previousStep →
  checkIfTheStepCanBeDisplay route e σ
  = (Ok (Datas.mk false
           (if truthy (Step.fallbackRoute previousStep)
            then Step.fallbackRoute previousStep
            else Options.defaultRoute o)), σ).
Proof.
  intros Hstep Hprev Hpstep. unfold checkIfTheStepCanBeDisplay. msimpl.
  rewrite Hstep, Hprev, Hpstep.
  destruct (truthy (Step.fallbackRoute previousStep)); msimpl; by destruct σ.
Qed.

(** An unknown candidate and a previous route that is no registered
    step either: [steps[previousRoute]] is [undefined] and reading its
    [fallbackRoute] throws. *)
Lemma gate_unknown_previous_unregistered :
  steps_get o (str route) = None →
  truthy (getPreviousRoute e) = true →
  steps_get o (getPreviousRoute e) = None →
  checkIfTheStepCanBeDisplay route e σ = (Throw TypeError, σ).
Proof.
  intros Hstep Hprev Hpstep. unfold checkIfTheStepCanBeDisplay. msimpl.
  rewrite Hstep, Hprev, Hpstep. msimpl. by destruct σ.
Qed.

(** The gate leaves the router and the window alone, and calls at most
    the candidate's [canTheStepBeDisplayed]. *)
Lemma gate_frame (res : Res Datas.t) (σ1 : State) :
  checkIfTheStepCanBeDisplay route e σ = (res, σ1) →
  this σ1 = this σ ∧ window σ1 = window σ
  ∧ (calls σ1 = calls σ ∨ calls σ1 = calls σ ++ [CanTheStepBeDisplayed route]).
Proof.
  unfold checkIfTheStepCanBeDisplay. msimpl.
  destruct (steps_get o (str route)) as [step|]; msimpl.
  - destruct (Step.canTheStepBeDisplayed step); intros [= <- <-]; auto.
  - destruct (truthy (getPreviousRoute e)); msimpl;
      [destruct (steps_get o (getPreviousRoute e)) as [p|];
       [destruct (truthy (Step.fallbackRoute p))|]|];
      msimpl; intros [= <- <-]; auto.
Qed.
End Gate.

(** C1 (the code departs from the claim) - unknown candidate route, prior
    token a non-empty string that is no registered route either: with the
    steps [a, b, c], the default route ["a"], the location at ["#zzz"] and
    an event whose [oldURL] ends in ["#yyy"], the gate does not answer
    [{canBeDisplayed: false, fallbackRoute: "a"}]; it throws a [TypeError],
    and so does the [hashchange] handler, before any state is written. *)
Theorem gate_throws_on_unregistered_previous_route :
  let σ := fresh abc "#zzz" in
  let e := event "http://x/#yyy" in
  steps_get abc (str "zzz") = None
  ∧ getPreviousRoute e = str "yyy"
  ∧ steps_get abc (str "yyy") = None
  ∧ checkIfTheStepCanBeDisplay "zzz" e σ = (Throw TypeError, σ)
  ∧ hashChanged e σ = (Throw TypeError, σ).
Proof. by vm_compute. Qed.

(** ** Lifecycle Manager: [createStep], [destroyStep],
    [stepCanBeDisplayed], [stepCantBeDisplayed] *)

Section Lifecycle.
Variable σ : State.
Abbreviation o := (Router.options (this σ)).

(** A create whose cache read and [render] both return. *)
Lemma createStep_returns (route : value) (step : Step.t)
    (stepDatas : option (gmap string value)) (datas : value) :
  steps_get o route = Some step →
  Options.getDatasFromCache o [route] = Ok stepDatas →
  datas_of stepDatas route = Ok datas →
  Step.render step datas = Ok () →
  createStep route σ
  = (Ok (),
     mkState (Router.set_applicationReady true (this σ)) (window σ)
       (calls σ ++ [GetDatasFromCache [route]; Render (ToString route) datas true])).
Proof.
  intros Hstep Hcache Hdatas Hrender. unfold createStep. msimpl.
  rewrite Hcache, Hstep, Hdatas, Hrender. msimpl.
  rewrite <- app_assoc. destruct σ as [[] ? ?]; simpl.
  by destruct applicationReady.
Qed.

Lemma destroyStep_returns (route : value) (step : Step.t) :
  steps_get o route = Some step →
  Step.destroy step = Ok () →
  destroyStep route σ
  = (Ok (), mkState (this σ) (window σ) (calls σ ++ [Destroy (ToString route) true])).
Proof.
  intros Hstep Hdestroy. unfold destroyStep. msimpl.
  by rewrite Hstep, Hdestroy.
Qed.

(** There is no step to destroy under an unregistered key. *)
Lemma destroyStep_unregistered (route : value) :
  steps_get o route = None → destroyStep route σ = (Throw TypeError, σ).
Proof.
  intros Hstep. unfold destroyStep. msimpl. rewrite Hstep. by destruct σ.
Qed.
End Lifecycle.

(** When the handler has an event but resolves no previous route, the
    destroy is skipped, and the create hangs on [stepCreated]: it happens
    if the flag is still [false] and is skipped once an earlier transition
    has set it. *)
Lemma stepCanBeDisplayed_no_previous (σ : State) (ev : Event.t) :
  truthy (resolved_previousRoute (this σ) (Some ev)) = false →
  stepCanBeDisplayed (Some ev) σ
  = let r := Router.set_previousRoute
               (resolved_previousRoute (this σ) (Some ev)) (this σ) in
    (_ ← when (negb (Router.stepCreated (this σ)))
           (createStep (Router.currentRoute (this σ)));
     r ← get_this;
     when (redirect_pending r)
       (update_this (Router.set_stepRedirected
          (Redirected.mk (Some false)
             (Redirected.previousRoute (Router.stepRedirected r))))))
      (mkState r (window σ) (calls σ)).
Proof.
  destruct σ as [[o rn sc ar [[[]|] mprev] cur prev h] w cs];
    unfold resolved_previousRoute; msimpl; intros Hprev;
    unfold stepCanBeDisplayed; msimpl; by rewrite Hprev.
Qed.

Lemma stepCanBeDisplayed_created_no_previous (σ : State) (ev : Event.t) :
  truthy (resolved_previousRoute (this σ) (Some ev)) = false →
  Router.stepCreated (this σ) = true →
  ∃ σ', stepCanBeDisplayed (Some ev) σ = (Ok (), σ') ∧ calls σ' = calls σ.
Proof.
  intros Hprev Hcreated. rewrite stepCanBeDisplayed_no_previous by done.
  destruct σ as [[o rn sc ar [[[]|] mprev] cur prev h] w cs];
    cbn [this Router.stepCreated] in Hcreated; subst sc;
    unfold resolved_previousRoute; msimpl; eauto.
Qed.

(** C3 (the code departs from the claim) - an allowed transition that
    carries an event but resolves no previous route does not always create
    the step: [stepCreated] is set by the first destroy-and-create and never
    reset.  With the steps [a, b, c] and no default route: the page opens at
    ["#a"] (step a rendered), [triggerNext] leads to ["#b"] (a destroyed, b
    rendered, [stepCreated] set), the user empties the fragment and then
    enters ["#zzz"] (two rejected transitions, the second one from a URL
    without fragment, so the redirect marker remembers no previous route),
    and finally enters ["#a"].  That last transition is allowed, has an
    event, resolves no previous route, and calls neither [destroy] nor
    [render]: step a is not created. *)
Theorem stale_stepCreated_suppresses_create :
  let σ :=
    run [Init; TriggerNext; HashChanged (event "http://x/#a");
         Location ""; HashChanged (event "http://x/#b");
         Location "#zzz"; HashChanged (event "http://x/#");
         Location "#a"]
      (fresh abc_no_default "#a") in
  let e := event "http://x/#zzz" in
  Router.stepCreated (this σ) = true
  ∧ (Step.canTheStepBeDisplayed <$> steps_get abc_no_default (str "a"))
    = Some (Ok (Datas.mk true undefined))
  ∧ truthy (resolved_previousRoute (this σ) e) = false
  ∧ fst (hashChanged e σ) = Ok ()
  ∧ calls (snd (hashChanged e σ)) = calls σ ++ [CanTheStepBeDisplayed "a"]
  ∧ Router.currentRoute (this (snd (hashChanged e σ))) = str "a".
Proof. by vm_compute. Qed.

(** X25 - an allowed location change to a route [a] for which the
    handler resolves a previous route that is a registered step, whose
    [destroy] returns, as do the cache read and [render] of [a], makes
    exactly these calls, in this order: [canTheStepBeDisplayed] on [a], one
    [destroy] on the previous route, one cache read and one [render] on
    [a].  [stepCreated] is then set, which is what keeps the handler from
    creating [a] a second time. *)
Theorem allowed_transition_destroys_then_renders
    (σ : State) (ev : Event.t) (a : string) (stepA previousStep : Step.t)
    (d : Datas.t) (stepDatas : option (gmap string value)) (datas : value) :
  let o := Router.options (this σ) in
  let previous := resolved_previousRoute (this σ) (Some ev) in
  substr1 (Window.hash (window σ)) = a →
  steps_get o (str a) = Some stepA →
  Step.canTheStepBeDisplayed stepA = Ok d →
  Datas.canBeDisplayed d = true →
  truthy previous = true →
  steps_get o previous = Some previousStep →
  Step.destroy previousStep = Ok () →
  Options.getDatasFromCache o [str a] = Ok stepDatas →
  datas_of stepDatas (str a) = Ok datas →
  Step.render stepA datas = Ok () →
  ∃ σ', hashChanged (Some ev) σ = (Ok (), σ')
    ∧ calls σ' = calls σ ++
        [CanTheStepBeDisplayed a; Destroy (ToString previous) true;
         GetDatasFromCache [str a]; Render a datas true]
    ∧ Router.currentRoute (this σ') = str a
    ∧ Router.previousRoute (this σ') = previous
    ∧ Router.stepCreated (this σ') = true.
Proof.
  destruct σ as [[o rn sc ar [[[]|] mprev] cur prev h] w cs];
    cbv zeta; unfold resolved_previousRoute;
    cbn [this window calls Router.options redirect_pending
         default Router.stepRedirected Redirected.redirect Redirected.previousRoute];
    intros Hhash HstepA Hcan Hallowed Hprev HprevStep Hdestroy
      Hcache Hdatas Hrender.
  all: unfold hashChanged, getRoute; msimpl; rewrite Hhash.
  all: erewrite gate_registered by exact HstepA; rewrite Hcan; msimpl.
  all: rewrite Hallowed; unfold stepCanBeDisplayed; msimpl; rewrite Hprev.
  all: erewrite destroyStep_returns by (exact HprevStep || exact Hdestroy); msimpl.
  all: erewrite createStep_returns
         by (exact HstepA || exact Hcache || exact Hdatas || exact Hrender);
       msimpl.
  all: eexists; split; [reflexivity|]; msimpl.
  all: by rewrite <- !app_assoc.
Qed.

Lemma allowed_transition_destroys_then_renders_witness :
  ∃ σ',
    hashChanged (event "http://x/#a") (run [Init; TriggerNext] (fresh abc "#a"))
    = (Ok (), σ')
    ∧ calls σ' = calls (run [Init; TriggerNext] (fresh abc "#a")) ++
        [CanTheStepBeDisplayed "b"; Destroy "a" true;
         GetDatasFromCache [str "b"]; Render "b" null true]
    ∧ Router.currentRoute (this σ') = str "b"
    ∧ Router.previousRoute (this σ') = str "a"
    ∧ Router.stepCreated (this σ') = true.
Proof.
  apply (allowed_transition_destroys_then_renders
           (run [Init; TriggerNext] (fresh abc "#a"))
           (Event.mk (str "http://x/#a")) "b" (plain_step "b") (plain_step "a")
           (Datas.mk true undefined) None null);
    by vm_compute.
Defined.

(** C4 (the code departs from the claim) - an allowed location change for
    which a previous route is resolved, yet no [destroy] and no [render]
    happens: the resolved previous route is not a registered step.  With
    the steps [a] (displayable) and [b] (refuses, sending to [a]) and no
    default route: the page opens at ["#a"], the user enters the unknown
    ["#yyy"] (rejected, nothing to redirect to), then ["#b"]; [b] refuses,
    the redirect marker remembers ["yyy"] as previous route and the router
    writes ["a"].  In the handler run for that change the gate allows [a],
    the previous route resolves to ["yyy"], which is truthy, and
    [destroyStep] reads [destroy] on [steps["yyy"]], which is [undefined]:
    a [TypeError], after the sole call of [canTheStepBeDisplayed]. *)
Theorem destroy_of_unregistered_previous_route_throws :
  let σ :=
    run [Init; Location "#yyy"; HashChanged (event "http://x/#a");
         Location "#b"; HashChanged (event "http://x/#yyy")]
      (fresh ab_b_refuses "#a") in
  let e := event "http://x/#b" in
  substr1 (Window.hash (window σ)) = "a"
  ∧ (Step.canTheStepBeDisplayed <$> steps_get ab_b_refuses (str "a"))
    = Some (Ok (Datas.mk true undefined))
  ∧ resolved_previousRoute (this σ) e = str "yyy"
  ∧ steps_get ab_b_refuses (str "yyy") = None
  ∧ fst (hashChanged e σ) = Throw TypeError
  ∧ calls (snd (hashChanged e σ)) = calls σ ++ [CanTheStepBeDisplayed "a"]
  ∧ Router.currentRoute (this (snd (hashChanged e σ))) = str "a"
  ∧ Router.previousRoute (this (snd (hashChanged e σ))) = str "yyy".
Proof. by vm_compute. Qed.

(** C6 - a rejected transition: when the gate answers (without throwing)
    that the route cannot be displayed, the handler returns normally,
    leaves the redirect marker at [{redirect: true, previousRoute: <the
    route parsed from the event>}] and [previousRoute] at [null], and
    writes the fallback route to the location exactly when the answer
    carries one (a truthy value, that is a non-empty string).  The calls of
    the whole handler are the gate's (at most [canTheStepBeDisplayed] on the
    candidate) followed by that write: no [destroy], no [render]. *)
Theorem rejected_transition_redirects
    (σ σ1 : State) (e : option Event.t) (d : Datas.t) :
  let route := substr1 (Window.hash (window σ)) in
  let fallbackRoute := Datas.fallbackRoute d in
  checkIfTheStepCanBeDisplay route e σ = (Ok d, σ1) →
  Datas.canBeDisplayed d = false →
  ∃ σ' gate,
    hashChanged e σ = (Ok (), σ')
    ∧ Router.stepRedirected (this σ')
      = Redirected.mk (Some true) (getPreviousRoute e)
    ∧ Router.previousRoute (this σ') = null
    ∧ Router.currentRoute (this σ') = str route
    ∧ (gate = [] ∨ gate = [CanTheStepBeDisplayed route])
    ∧ calls σ' = calls σ ++ gate
        ++ (if truthy fallbackRoute then [SetHash fallbackRoute] else [])
    ∧ existsb lifecycle_call (skipn (length (calls σ)) (calls σ')) = false
    ∧ Window.hash (window σ')
      = (if truthy fallbackRoute then hash_of fallbackRoute
         else Window.hash (window σ)).
Proof.
  intros route fallbackRoute Hgate Hrejected.
  destruct (gate_frame _ _ _ _ _ Hgate) as (Hthis & Hwindow & Hcalls).
  unfold hashChanged, getRoute. msimpl. fold route. rewrite Hgate. msimpl.
  rewrite Hrejected. unfold stepCantBeDisplayed, setRoute. fold fallbackRoute.
  msimpl. rewrite Hwindow.
  assert (∃ gate, (gate = [] ∨ gate = [CanTheStepBeDisplayed route])
                  ∧ calls σ1 = calls σ ++ gate) as (gate & Hshape & ->).
  { destruct Hcalls as [-> | ->];
      [exists []; split; [by left | by rewrite app_nil_r]
      |eexists; split; [by right | done]]. }
  destruct (truthy fallbackRoute); msimpl;
    eexists; exists gate; (split; [reflexivity|]); msimpl;
    rewrite <- ?app_assoc, ?app_nil_r, ?drop_app_length;
    repeat split; try done; by destruct Hshape as [-> | ->].
Qed.

Lemma rejected_transition_redirects_witness :
  ∃ σ' gate,
    hashChanged (event "http://x/#b")
      (run [Init; TriggerNext; HashChanged (event "http://x/#a"); Location "#zzz"]
         (fresh abc "#a"))
    = (Ok (), σ')
    ∧ Router.stepRedirected (this σ')
      = Redirected.mk (Some true) (getPreviousRoute (event "http://x/#b"))
    ∧ Router.previousRoute (this σ') = null
    ∧ Router.currentRoute (this σ') = str "zzz"
    ∧ (gate = [] ∨ gate = [CanTheStepBeDisplayed "zzz"])
    ∧ calls σ'
      = calls (run [Init; TriggerNext; HashChanged (event "http://x/#a");
                    Location "#zzz"] (fresh abc "#a"))
        ++ gate ++ [SetHash (str "a")]
    ∧ existsb lifecycle_call
        (skipn (length (calls (run [Init; TriggerNext;
                                    HashChanged (event "http://x/#a");
                                    Location "#zzz"] (fresh abc "#a"))))
           (calls σ')) = false
    ∧ Window.hash (window σ') = "#a".
Proof.
  apply (rejected_transition_redirects
           (run [Init; TriggerNext; HashChanged (event "http://x/#a"); Location "#zzz"]
              (fresh abc "#a"))
           (run [Init; TriggerNext; HashChanged (event "http://x/#a"); Location "#zzz"]
              (fresh abc "#a"))
           (event "http://x/#b") (Datas.mk false (str "a")));
    by vm_compute.
Defined.

(** ** Entry points: [triggerNext], [triggerPrevious] *)

(** C7 - [triggerNext] at and before the boundary, on a well-formed
    registry with the current route at index [i] of [stepsOrder]: if that
    is the last index, the result is [false], nothing is written to the
    location and no call leaves the router (so no destroy and no create);
    if index [i + 1] holds a route, that route is written to the location
    and the result is [true].  In both cases [reverseNavigation] is reset
    and [previousRoute] takes the current route. *)
Theorem triggerNext_boundary (σ : State) (i : nat) (current : string) :
  let o := Router.options (this σ) in
  let r := Router.set_previousRoute (str current)
             (Router.set_reverseNavigation false (this σ)) in
  registry_wf o →
  Options.stepsOrder o !! i = Some current →
  Router.currentRoute (this σ) = str current →
  (S i = length (Options.stepsOrder o) →
   triggerNext σ = (Ok false, mkState r (window σ) (calls σ)))
  ∧ (∀ next, Options.stepsOrder o !! S i = Some next →
     triggerNext σ
     = (Ok true,
        mkState r
          (Window.mk (hash_of (str next)) (Window.listeners (window σ)))
          (calls σ ++ [SetHash (str next)]))).
Proof.
  intros o r Hwf Hi Hcurrent. subst r. split.
  - intros Hlast. unfold triggerNext, setRoute. msimpl.
    rewrite Hcurrent. fold o.
    by rewrite (getNextStepRoute_last o i current Hwf Hi Hlast).
  - intros next Hnext. unfold triggerNext, setRoute. msimpl.
    rewrite Hcurrent. fold o.
    rewrite (getNextStepRoute_interior o i current next Hwf Hi Hnext).
    assert (strict_ne (str next) (str "end") = true) as ->; [|done].
    unfold strict_ne, strict_eq. rewrite bool_decide_eq_false_2; [done|].
    intros [= ->]. destruct Hwf as (_ & _ & _ & Hend).
    apply Hend. by eapply list_elem_of_lookup_2.
Qed.

Lemma triggerNext_boundary_witness :
  let σc := run [Init] (fresh abc "#c") in
  let σa := run [Init] (fresh abc "#a") in
  (fst (triggerNext σc) = Ok false
   ∧ snd (triggerNext σc)
     = mkState
         (Router.set_previousRoute (str "c")
            (Router.set_reverseNavigation false (this σc)))
         (window σc) (calls σc))
  ∧ (fst (triggerNext σa) = Ok true
     ∧ calls (snd (triggerNext σa)) = calls σa ++ [SetHash (str "b")]
     ∧ Window.hash (window (snd (triggerNext σa))) = "#b").
Proof.
  intros σc σa.
  assert (registry_wf abc) as Hwf by by apply (bool_decide_unpack _).
  destruct (triggerNext_boundary σc 2 "c" Hwf eq_refl eq_refl) as [Hlast _].
  destruct (triggerNext_boundary σa 0 "a" Hwf eq_refl eq_refl) as [_ Hnext].
  rewrite (Hlast eq_refl), (Hnext "b" eq_refl). by vm_compute.
Defined.

(** C9 - [triggerPrevious] has no boundary test: it always returns
    normally with [reverseNavigation] set, [previousRoute] holding the
    current route, and the result of [getPreviousStepRoute] on the current
    route written to the location.  At the first entry of [stepsOrder]
    (no step being registered under the key ["undefined"]) that result is
    the sentinel, and the location becomes ["#end"]. *)
Theorem triggerPrevious_always_writes (σ : State) :
  let o := Router.options (this σ) in
  let current := Router.currentRoute (this σ) in
  let target := getPreviousStepRoute o current in
  triggerPrevious σ
  = (Ok (),
     mkState
       (Router.set_previousRoute current
          (Router.set_reverseNavigation true (this σ)))
       (Window.mk (hash_of target) (Window.listeners (window σ)))
       (calls σ ++ [SetHash target]))
  ∧ Router.reverseNavigation (this (snd (triggerPrevious σ))) = true
  ∧ Router.previousRoute (this (snd (triggerPrevious σ))) = current
  ∧ (∀ first,
       Options.stepsOrder o !! 0%nat = Some first →
       current = str first →
       Options.steps o !! "undefined" = None →
       target = str "end"
       ∧ Window.hash (window (snd (triggerPrevious σ))) = "#end").
Proof.
  intros o current target.
  assert (triggerPrevious σ
          = (Ok (),
             mkState
               (Router.set_previousRoute current
                  (Router.set_reverseNavigation true (this σ)))
               (Window.mk (hash_of target) (Window.listeners (window σ)))
               (calls σ ++ [SetHash target]))) as Hrun.
  { unfold triggerPrevious, setRoute. by msimpl. }
  rewrite Hrun. msimpl. do 3 (split; [done|]).
  intros first Hfirst Hcurrent Hundef. subst target. rewrite Hcurrent.
  by rewrite (getPreviousStepRoute_first o first Hfirst Hundef).
Qed.

Lemma triggerPrevious_always_writes_witness :
  getPreviousStepRoute abc (str "a") = str "end"
  ∧ Window.hash (window (snd (triggerPrevious (run [Init] (fresh abc "#a")))))
    = "#end".
Proof.
  pose proof (triggerPrevious_always_writes (run [Init] (fresh abc "#a")))
    as (_ & _ & _ & Hfirst).
  apply (Hfirst "a"); by vm_compute.
Defined.

(** ** [applicationReady] *)

Lemma tracks_ret {A} (a : A) : tracks (mret a).
Proof. intros σ. exists []. by rewrite app_nil_r, orb_false_r. Qed.

Lemma tracks_throw {A} (e : error) : tracks (throw e : M A).
Proof. intros σ. exists []. by rewrite app_nil_r, orb_false_r. Qed.

Lemma tracks_lift {A} (r : Res A) : tracks (lift r).
Proof. intros σ. exists []. by rewrite app_nil_r, orb_false_r. Qed.

Lemma tracks_get_this : tracks get_this.
Proof. intros σ. exists []. by rewrite app_nil_r, orb_false_r. Qed.

Lemma tracks_get_window : tracks get_window.
Proof. intros σ. exists []. by rewrite app_nil_r, orb_false_r. Qed.

Lemma tracks_put_window (w : Window.t) : tracks (put_window w).
Proof. intros σ. exists []. simpl. by rewrite app_nil_r, orb_false_r. Qed.

Lemma tracks_getRoute : tracks getRoute.
Proof. intros σ. exists []. simpl. by rewrite app_nil_r, orb_false_r. Qed.

(** A write to a field other than [applicationReady]. *)
Lemma tracks_update_this (f : Router.t → Router.t) :
  (∀ r, Router.applicationReady (f r) = Router.applicationReady r) →
  tracks (update_this f).
Proof.
  intros Hf σ. exists []. simpl. by rewrite app_nil_r, orb_false_r, Hf.
Qed.

(** A call that is not a render that returned. *)
Lemma tracks_record (c : call) :
  successful_render c = false → tracks (record c).
Proof. intros Hc σ. exists [c]. simpl. by rewrite Hc, orb_false_r. Qed.

Lemma tracks_bind {A B} (m : M A) (f : A → M B) :
  tracks m → (∀ a, tracks (f a)) → tracks (m ≫= f).
Proof.
  intros Hm Hf σ. destruct (Hm σ) as (new1 & Hcalls1 & Hready1).
  unfold mbind, M_bind. destruct (m σ) as [[a|e] σ1]; simpl in *.
  - destruct (Hf a σ1) as (new2 & Hcalls2 & Hready2). exists (new1 ++ new2).
    rewrite Hcalls2, Hready2, Hcalls1, Hready1, existsb_app.
    by rewrite <- app_assoc, orb_assoc.
  - exists new1. by rewrite Hcalls1, Hready1.
Qed.

Lemma tracks_when (b : bool) (m : M unit) : tracks m → tracks (when b m).
Proof. intros Hm. destruct b; [done | apply tracks_ret]. Qed.

Create HintDb tracks.
#[local] Hint Resolve tracks_ret tracks_throw tracks_lift tracks_get_this
  tracks_get_window tracks_put_window tracks_getRoute tracks_record
  tracks_when : tracks.

(** Follow the shape of a method: binds, conditionals, and the field
    writes, none of which touches [applicationReady]. *)
Ltac tracks_method :=
  repeat first
    [ solve [auto with tracks]
    | apply tracks_update_this; by intros []
    | apply tracks_when
    | apply tracks_bind
    | progress intros
    | match goal with
      | |- tracks (match ?x with _ => _ end) => destruct x
      | |- tracks (if ?b then _ else _) => destruct b
      end ].

(** [createStep] is the one place where [applicationReady] is written:
    after [render] has returned, and only to [true]. *)
Lemma tracks_createStep (route : value) : tracks (createStep route).
Proof.
  intros σ. unfold createStep. msimpl.
  destruct (Options.getDatasFromCache _ _) as [stepDatas|]; msimpl;
    [|exists [GetDatasFromCache [route]]; by rewrite orb_false_r].
  destruct (steps_get _ route) as [step|]; msimpl;
    [|exists [GetDatasFromCache [route]]; by rewrite orb_false_r].
  destruct (datas_of stepDatas route) as [datas|]; msimpl;
    [|exists [GetDatasFromCache [route]]; by rewrite orb_false_r].
  destruct (Step.render step datas) as [[]|]; msimpl.
  - exists [GetDatasFromCache [route]; Render (ToString route) datas true].
    simpl. rewrite orb_true_r.
    destruct (Router.applicationReady (this σ)) eqn:Hready; msimpl;
      by rewrite <- app_assoc, ?Hready.
  - exists [GetDatasFromCache [route]; Render (ToString route) datas false].
    simpl. by rewrite orb_false_r, <- app_assoc.
Qed.

Lemma tracks_destroyStep (route : value) : tracks (destroyStep route).
Proof.
  unfold destroyStep. tracks_method.
Qed.

Lemma tracks_setRoute (route : value) : tracks (setRoute route).
Proof. unfold setRoute. tracks_method. Qed.

Lemma tracks_checkIfTheStepCanBeDisplay (route : string) (e : option Event.t) :
  tracks (checkIfTheStepCanBeDisplay route e).
Proof. unfold checkIfTheStepCanBeDisplay. tracks_method. Qed.

#[local] Hint Resolve tracks_createStep tracks_destroyStep tracks_setRoute
  tracks_checkIfTheStepCanBeDisplay : tracks.

Lemma tracks_stepCanBeDisplayed (e : option Event.t) :
  tracks (stepCanBeDisplayed e).
Proof. unfold stepCanBeDisplayed. tracks_method. Qed.

Lemma tracks_stepCantBeDisplayed (e : option Event.t) (fallbackRoute : value) :
  tracks (stepCantBeDisplayed e fallbackRoute).
Proof. unfold stepCantBeDisplayed. tracks_method. Qed.

#[local] Hint Resolve tracks_stepCanBeDisplayed tracks_stepCantBeDisplayed
  : tracks.

Lemma tracks_hashChanged (e : option Event.t) : tracks (hashChanged e).
Proof. unfold hashChanged. tracks_method. Qed.

#[local] Hint Resolve tracks_hashChanged : tracks.

Lemma tracks_exec (o : op) : tracks (exec o).
Proof.
  destruct o; unfold exec, init, addEvents, triggerNext, triggerPrevious,
    destroy; tracks_method.
Qed.

(** Along a run that starts with the constructor, [applicationReady]
    tells whether some [render] has returned so far. *)
Lemma applicationReady_run (ops : list op) (σ : State) :
  Router.applicationReady (this σ) = existsb successful_render (calls σ) →
  Router.applicationReady (this (run ops σ))
  = existsb successful_render (calls (run ops σ)).
Proof.
  revert σ. induction ops as [|o ops IH]; intros σ Hσ; [done|].
  simpl. apply IH. destruct (tracks_exec o σ) as (new & -> & ->).
  by rewrite existsb_app, Hσ.
Qed.

(** C5 - [applicationReady] is monotone.  Whatever happens to the router
    (a call of [init], [triggerNext], [triggerPrevious] or [destroy], a
    change of the location, a run of the [hashchange] handler, returning or
    throwing), the flag stays [true] once [true]; a [createStep] whose
    [render] returns leaves it [true]; and on every run from a freshly
    constructed router the flag is [true] exactly when some [render] has
    returned. *)
Theorem applicationReady_monotone :
  (∀ (o : op) (σ : State),
     Router.applicationReady (this σ) = true →
     Router.applicationReady (this (snd (exec o σ))) = true)
  ∧ (∀ (route : value) (σ : State),
       fst (createStep route σ) = Ok () →
       Router.applicationReady (this (snd (createStep route σ))) = true)
  ∧ (∀ (options : Options.t) (hash : string) (ops : list op),
       Router.applicationReady (this (run ops (fresh options hash)))
       = existsb successful_render (calls (run ops (fresh options hash)))).
Proof.
  split; [|split].
  - intros o σ Hready. destruct (tracks_exec o σ) as (new & _ & ->).
    by rewrite Hready.
  - intros route σ. unfold createStep. msimpl.
    destruct (Options.getDatasFromCache _ _) as [stepDatas|]; msimpl; [|done].
    destruct (steps_get _ route) as [step|]; msimpl; [|done].
    destruct (datas_of stepDatas route) as [datas|]; msimpl; [|done].
    destruct (Step.render step datas) as [[]|]; msimpl; [|done].
    by destruct (Router.applicationReady (this σ)) eqn:Hready.
  - intros options hash ops. by apply applicationReady_run.
Qed.

Lemma applicationReady_monotone_witness :
  Router.applicationReady
    (this (snd (exec (HashChanged (event "http://x/#b"))
                  (run [Init; Location "#zzz"] (fresh abc "#b"))))) = true
  ∧ Router.applicationReady (this (snd (createStep (str "a") (fresh abc "")))) = true.
Proof.
  destruct applicationReady_monotone as (Hkeep & Hcreate & _).
  split.
  - apply (Hkeep (HashChanged (event "http://x/#b"))
             (run [Init; Location "#zzz"] (fresh abc "#b"))).
    by vm_compute.
  - apply (Hcreate (str "a") (fresh abc "")). by vm_compute.
Defined.

(** * Further properties *)

(** ** Sequencer *)

(** X1 - [getIndexFromRoute] is [findIndex]: either the route is nowhere
    in [stepsOrder] and the index is [-1], or the index is that of the
    first entry equal to the route, and reading [stepsOrder] there gives
    the route back. *)
Theorem getIndexFromRoute_first_match (o : Options.t) (route : value) :
  (getIndexFromRoute o route = -1
   ∧ ∀ r, route = str r → r ∉ Options.stepsOrder o)
  ∨ (∃ (i : nat) (r : string),
       getIndexFromRoute o route = Z.of_nat i
       ∧ route = str r
       ∧ Options.stepsOrder o !! i = Some r
       ∧ array_get (Options.stepsOrder o) (getIndexFromRoute o route) = route
       ∧ ∀ j, (j < i)%nat → Options.stepsOrder o !! j ≠ Some r).
Proof.
  unfold getIndexFromRoute, findIndex.
  destruct (list_find _ _) as [[i r]|] eqn:Hfind.
  - right. apply list_find_Some in Hfind as (Hi & <- & Hmin).
    exists i, r. rewrite array_get_nat, Hi. repeat split; try done.
    intros j Hj Hjr. by apply (Hmin j r).
  - left. split; [done|]. intros r -> Hr.
    apply list_find_None in Hfind. rewrite Forall_forall in Hfind.
    by apply (Hfind r).
Qed.

(** X2 - on a well-formed registry, the route before the entry at index
    [i] is the entry at index [i - 1], and the sentinel ["end"] at index
    [0]. *)
Theorem getPreviousStepRoute_position (o : Options.t) (i : nat) (r : string) :
  registry_wf o →
  Options.stepsOrder o !! i = Some r →
  getPreviousStepRoute o (str r)
  = match i with
    | O => str "end"
    | S j => array_get (Options.stepsOrder o) (Z.of_nat j)
    end.
Proof.
  intros Hwf Hi. destruct i as [|j].
  - apply getPreviousStepRoute_first; [done|]. apply Hwf.
  - destruct (Options.stepsOrder o !! j) as [prev|] eqn:Hj.
    + rewrite array_get_nat, Hj. by apply (getPreviousStepRoute_interior o j).
    + apply lookup_ge_None_1 in Hj. apply lookup_lt_Some in Hi. lia.
Qed.

Lemma getPreviousStepRoute_position_witness :
  getPreviousStepRoute abc (str "c") = str "b"
  ∧ getPreviousStepRoute abc (str "a") = str "end".
Proof.
  assert (registry_wf abc) as Hwf by by apply (bool_decide_unpack _).
  split.
  - apply (getPreviousStepRoute_position abc 2 "c" Hwf eq_refl).
  - apply (getPreviousStepRoute_position abc 0 "a" Hwf eq_refl).
Defined.

(** X3 - on a well-formed registry, the route after the entry at index
    [i] is the entry at index [i + 1], and the sentinel ["end"] when there
    is none. *)
Theorem getNextStepRoute_position (o : Options.t) (i : nat) (r : string) :
  registry_wf o →
  Options.stepsOrder o !! i = Some r →
  getNextStepRoute o (str r)
  = from_option str (str "end") (Options.stepsOrder o !! S i).
Proof.
  intros Hwf Hi. destruct (Options.stepsOrder o !! S i) as [nxt|] eqn:HSi.
  - by apply (getNextStepRoute_interior o i).
  - apply (getNextStepRoute_last o i); [done..|].
    apply lookup_ge_None_1 in HSi. apply lookup_lt_Some in Hi. lia.
Qed.

Lemma getNextStepRoute_position_witness :
  getNextStepRoute abc (str "a") = str "b"
  ∧ getNextStepRoute abc (str "c") = str "end".
Proof.
  assert (registry_wf abc) as Hwf by by apply (bool_decide_unpack _).
  split.
  - apply (getNextStepRoute_position abc 0 "a" Hwf eq_refl).
  - apply (getNextStepRoute_position abc 2 "c" Hwf eq_refl).
Defined.

(** X4 - previous followed by next is a round trip too: on a well-formed
    registry, for every route [R] of [stepsOrder] whose previous route is
    not the sentinel, [getNextStepRoute (getPreviousStepRoute R)] is [R]. *)
Theorem next_of_previous (o : Options.t) (R : string) :
  registry_wf o →
  R ∈ Options.stepsOrder o →
  getPreviousStepRoute o (str R) ≠ str "end" →
  getNextStepRoute o (getPreviousStepRoute o (str R)) = str R.
Proof.
  intros Hwf HR Hend.
  apply list_elem_of_lookup_1 in HR as [[|j] Hi].
  - destruct Hend. apply getPreviousStepRoute_first; [done|]. apply Hwf.
  - destruct (Options.stepsOrder o !! j) as [prev|] eqn:Hj.
    + rewrite (getPreviousStepRoute_interior o j prev R) by done.
      by apply (getNextStepRoute_interior o j).
    + apply lookup_ge_None_1 in Hj. apply lookup_lt_Some in Hi. lia.
Qed.

Lemma next_of_previous_witness :
  getNextStepRoute abc (getPreviousStepRoute abc (str "c")) = str "c".
Proof.
  apply (next_of_previous abc "c").
  - by apply (bool_decide_unpack _).
  - by apply (bool_decide_unpack _).
  - by vm_compute.
Defined.

(** X5 - the two directions differ on a route that is not an entry of
    [stepsOrder] (an unknown string, [null], [undefined]): looking
    backwards from index [-1] always falls off the array, so
    [getPreviousStepRoute] answers ["end"] as soon as no step sits under
    the key ["undefined"]. *)
Theorem getPreviousStepRoute_unknown_route (o : Options.t) (route : value) :
  (∀ r, route = str r → r ∉ Options.stepsOrder o) →
  Options.steps o !! "undefined" = None →
  getIndexFromRoute o route = -1
  ∧ getPreviousStepRoute o route = str "end".
Proof.
  intros Habs Hundef. split.
  - by apply getIndexFromRoute_absent.
  - by apply getPreviousStepRoute_absent.
Qed.

Lemma getPreviousStepRoute_unknown_route_witness :
  getIndexFromRoute abc null = -1
  ∧ getPreviousStepRoute abc null = str "end".
Proof.
  apply (getPreviousStepRoute_unknown_route abc null).
  - intros r Hr. discriminate Hr.
  - by vm_compute.
Defined.

(** ** Reading and writing the location *)

Lemma split_without (c : ascii) (s : string) :
  includes c s = false → split c s = [s].
Proof.
  induction s as [|a s IH]; simpl; [done|].
  destruct (Ascii.eqb a c); simpl; [done|]. intros Hs. by rewrite IH.
Qed.

Lemma split_at_first (c : ascii) (base rest : string) :
  includes c base = false →
  split c (base +:+ String c rest) = base :: split c rest.
Proof.
  induction base as [|a base IH]; simpl.
  - by rewrite Ascii.eqb_refl.
  - destruct (Ascii.eqb a c); simpl; [done|]. intros Hbase. by rewrite IH.
Qed.

Lemma truthy_with_separator (c : ascii) (base rest : string) :
  truthy (str (base +:+ String c rest)) = true.
Proof. by destruct base. Qed.

(** X6 - [getPreviousRoute] parses the previous route out of the event:
    [null] without an event or with a falsy [oldURL]; [undefined] for a
    URL without ["#"]; otherwise what lies between the first ["#"] and
    the next one (or the end of the URL), which is the whole fragment
    only when the fragment has no ["#"] of its own. *)
Theorem getPreviousRoute_parses :
  getPreviousRoute None = null
  ∧ (∀ oldURL, truthy oldURL = false →
       getPreviousRoute (Some (Event.mk oldURL)) = null)
  ∧ (∀ url, url ≠ "" → includes "#" url = false →
       getPreviousRoute (event url) = undefined)
  ∧ (∀ base fragment,
       includes "#" base = false → includes "#" fragment = false →
       getPreviousRoute (event (base +:+ String "#" fragment)) = str fragment)
  ∧ (∀ base fragment rest,
       includes "#" base = false → includes "#" fragment = false →
       getPreviousRoute
         (event (base +:+ String "#" (fragment +:+ String "#" rest)))
       = str fragment).
Proof.
  split; [done|]. split; [|split; [|split]].
  - intros oldURL Hfalsy. unfold getPreviousRoute. simpl.
    destruct oldURL as [| |url]; [done..|]. by rewrite Hfalsy.
  - intros url Hurl Hsep. unfold getPreviousRoute, event. simpl.
    rewrite split_without by done.
    unfold truthy. destruct url; [done|]. done.
  - intros base fragment Hbase Hfragment. unfold getPreviousRoute, event. simpl.
    rewrite truthy_with_separator, split_at_first by done.
    by rewrite split_without.
  - intros base fragment rest Hbase Hfragment. unfold getPreviousRoute, event.
    simpl. rewrite truthy_with_separator, split_at_first by done.
    by rewrite split_at_first.
Qed.

Lemma getPreviousRoute_parses_witness :
  getPreviousRoute (Some (Event.mk (str ""))) = null
  ∧ getPreviousRoute (event "http://x/") = undefined
  ∧ getPreviousRoute (event "http://x/#b") = str "b"
  ∧ getPreviousRoute (event "http://x/#b#c") = str "b".
Proof.
  destruct getPreviousRoute_parses as (_ & Hfalsy & Hnone & Hone & Htwo).
  split; [|split; [|split]].
  - apply (Hfalsy (str "")). reflexivity.
  - apply (Hnone "http://x/"); [discriminate | reflexivity].
  - apply (Hone "http://x/" "b"); reflexivity.
  - apply (Htwo "http://x/" "b" "c"); reflexivity.
Defined.

(** X7 - what [getRoute] reads after [setRoute], for a value whose
    string form is made of characters that the location keeps as written:
    that string form, less one leading ["#"].  So such a route is read
    back as written unless it starts with ["#"], the empty route is read
    back empty, and [setRoute(null)] leaves the route ["null"]. *)
Theorem getRoute_after_setRoute (v : value) (σ : State) :
  written_verbatim (ToString v) = true →
  fst ((setRoute v;; getRoute) σ) = Ok (drop_leading_hash (ToString v)).
Proof.
  intros _. unfold setRoute, getRoute. msimpl.
  change (hash_of v)
    with (if String.eqb (drop_leading_hash (ToString v)) ""
          then EmptyString
          else String "#"%char (drop_leading_hash (ToString v))).
  by destruct (String.eqb_spec (drop_leading_hash (ToString v)) "") as [-> | _].
Qed.

Lemma getRoute_after_setRoute_witness :
  fst ((setRoute (str "step-2");; getRoute) (fresh abc "#a")) = Ok "step-2"
  ∧ fst ((setRoute (str "#b");; getRoute) (fresh abc "#a")) = Ok "b"
  ∧ fst ((setRoute null;; getRoute) (fresh abc "#a")) = Ok "null".
Proof.
  split; [|split].
  - apply (getRoute_after_setRoute (str "step-2") (fresh abc "#a")). reflexivity.
  - apply (getRoute_after_setRoute (str "#b") (fresh abc "#a")). reflexivity.
  - apply (getRoute_after_setRoute null (fresh abc "#a")). reflexivity.
Defined.

(** ** What no method changes *)

Lemma stable_ret {A} (I : State → Prop) (a : A) : stable I (mret a).
Proof. by intros σ. Qed.

Lemma stable_throw {A} (I : State → Prop) (e : error) : stable I (throw e : M A).
Proof. by intros σ. Qed.

Lemma stable_lift {A} (I : State → Prop) (r : Res A) : stable I (lift r).
Proof. by intros σ. Qed.

Lemma stable_get_this (I : State → Prop) : stable I get_this.
Proof. by intros σ. Qed.

Lemma stable_get_window (I : State → Prop) : stable I get_window.
Proof. by intros σ. Qed.

Lemma stable_getRoute (I : State → Prop) : stable I getRoute.
Proof. by intros σ. Qed.

Lemma stable_update_this (I : State → Prop) (f : Router.t → Router.t) :
  (∀ σ, I σ → I (mkState (f (this σ)) (window σ) (calls σ))) →
  stable I (update_this f).
Proof. intros Hf σ. apply Hf. Qed.

Lemma stable_put_window (I : State → Prop) (w : Window.t) :
  (∀ σ, I σ → I (mkState (this σ) w (calls σ))) →
  stable I (put_window w).
Proof. intros Hw σ. apply Hw. Qed.

Lemma stable_record (I : State → Prop) (c : call) :
  (∀ σ, I σ → I (mkState (this σ) (window σ) (calls σ ++ [c]))) →
  stable I (record c).
Proof. intros Hc σ. apply Hc. Qed.

Lemma stable_setRoute (I : State → Prop) (route : value) :
  (∀ σ, I σ →
     I (mkState (this σ)
          (Window.mk (hash_of route) (Window.listeners (window σ)))
          (calls σ ++ [SetHash route]))) →
  stable I (setRoute route).
Proof. intros Hroute σ. apply Hroute. Qed.

Lemma stable_bind {A B} (I : State → Prop) (m : M A) (f : A → M B) :
  stable I m → (∀ a, stable I (f a)) → stable I (m ≫= f).
Proof.
  intros Hm Hf σ Hσ. specialize (Hm σ Hσ). unfold mbind, M_bind.
  destruct (m σ) as [[a|e] σ1]; simpl in *; [by apply Hf | done].
Qed.

Lemma stable_when (I : State → Prop) (b : bool) (m : M unit) :
  stable I m → stable I (when b m).
Proof. intros Hm. destruct b; [done | apply stable_ret]. Qed.

Create HintDb stable.
#[local] Hint Resolve stable_ret stable_throw stable_lift stable_get_this
  stable_get_window stable_getRoute : stable.

(** Follow the shape of a method; a write is accepted when the property
    reads the same after it. *)
Ltac stable_write := intros ? ?; solve [assumption | reflexivity].

Ltac stable_method :=
  repeat first
    [ solve [auto with stable]
    | apply stable_setRoute; stable_write
    | apply stable_update_this; stable_write
    | apply stable_put_window; stable_write
    | apply stable_record; stable_write
    | apply stable_when
    | apply stable_bind
    | progress intros
    | match goal with
      | |- stable _ (match ?x with _ => _ end) => destruct x
      | |- stable _ (if ?b then _ else _) => destruct b
      end ].

Lemma stable_hashChanged_frame (σ0 : State) (e : option Event.t) :
  stable
    (λ σ, Router.options (this σ) = Router.options (this σ0)
          ∧ Router.reverseNavigation (this σ) = Router.reverseNavigation (this σ0)
          ∧ Router.onHashChanged (this σ) = Router.onHashChanged (this σ0)
          ∧ Window.listeners (window σ) = Window.listeners (window σ0))
    (hashChanged e).
Proof.
  unfold hashChanged, checkIfTheStepCanBeDisplay, stepCanBeDisplayed,
    stepCantBeDisplayed, createStep, destroyStep.
  stable_method.
Qed.

(** X8 - a run of the [hashchange] handler, returning or throwing, leaves
    the options, the direction flag [reverseNavigation], the bound handler
    and the listeners of the window as they were: only the trigger methods
    set the direction, only [init] and [destroy] touch the listeners. *)
Theorem hashChanged_frame (e : option Event.t) (σ : State) :
  Router.options (this (snd (hashChanged e σ))) = Router.options (this σ)
  ∧ Router.reverseNavigation (this (snd (hashChanged e σ)))
    = Router.reverseNavigation (this σ)
  ∧ Router.onHashChanged (this (snd (hashChanged e σ)))
    = Router.onHashChanged (this σ)
  ∧ Window.listeners (window (snd (hashChanged e σ)))
    = Window.listeners (window σ).
Proof. by apply (stable_hashChanged_frame σ e σ). Qed.

Lemma stable_exec_options (o0 : Options.t) (o : op) :
  stable (λ σ, Router.options (this σ) = o0) (exec o).
Proof.
  destruct o; unfold exec, init, addEvents, triggerNext, triggerPrevious,
    destroy, hashChanged, checkIfTheStepCanBeDisplay, stepCanBeDisplayed,
    stepCantBeDisplayed, createStep, destroyStep;
    stable_method.
Qed.

(** X9 - the registry is static: whatever is done to a router, and
    whatever throws on the way, [this.options] stays the object given to
    the constructor. *)
Theorem options_static (ops : list op) (σ : State) :
  Router.options (this (run ops σ)) = Router.options (this σ).
Proof.
  revert σ. induction ops as [|o ops IH]; intros σ; [done|].
  simpl. rewrite IH. by apply (stable_exec_options (Router.options (this σ)) o σ).
Qed.

Lemma stable_exec_stepCreated (o : op) :
  stable (λ σ, Router.stepCreated (this σ) = true) (exec o).
Proof.
  destruct o; unfold exec, init, addEvents, triggerNext, triggerPrevious,
    destroy, hashChanged, checkIfTheStepCanBeDisplay, stepCanBeDisplayed,
    stepCantBeDisplayed, createStep, destroyStep;
    stable_method.
Qed.

(** X10 - [stepCreated] is never reset: once a transition has set it, it
    stays [true] through every later method call, location change and
    handler run. *)
Theorem stepCreated_never_reset (ops : list op) (σ : State) :
  Router.stepCreated (this σ) = true →
  Router.stepCreated (this (run ops σ)) = true.
Proof.
  revert σ. induction ops as [|o ops IH]; intros σ Hσ; [done|].
  simpl. apply IH. by apply (stable_exec_stepCreated o σ).
Qed.

Lemma stepCreated_never_reset_witness :
  Router.stepCreated
    (this (run [Location ""; HashChanged (event "http://x/#b");
                TriggerPrevious; Teardown; Init]
             (run [Init; TriggerNext; HashChanged (event "http://x/#a")]
                (fresh abc "#a")))) = true.
Proof.
  apply (stepCreated_never_reset
           [Location ""; HashChanged (event "http://x/#b");
            TriggerPrevious; Teardown; Init]
           (run [Init; TriggerNext; HashChanged (event "http://x/#a")]
              (fresh abc "#a"))).
  by vm_compute.
Defined.

(** ** More of the Lifecycle Manager *)

(** X11 - the create that needs no destroy: an allowed transition that
    carries an event but resolves no previous route, on a router whose
    [stepCreated] is still [false], renders the step of the new route
    exactly once and destroys nothing.  [stepCreated] stays [false] (only
    a destroy-and-create pair sets it) and a pending redirect marker is
    reset. *)
Theorem first_transition_creates
    (σ : State) (ev : Event.t) (a : string) (stepA : Step.t)
    (d : Datas.t) (stepDatas : option (gmap string value)) (datas : value) :
  let o := Router.options (this σ) in
  let previous := resolved_previousRoute (this σ) (Some ev) in
  substr1 (Window.hash (window σ)) = a →
  steps_get o (str a) = Some stepA →
  Step.canTheStepBeDisplayed stepA = Ok d →
  Datas.canBeDisplayed d = true →
  truthy previous = false →
  Router.stepCreated (this σ) = false →
  Options.getDatasFromCache o [str a] = Ok stepDatas →
  datas_of stepDatas (str a) = Ok datas →
  Step.render stepA datas = Ok () →
  ∃ σ', hashChanged (Some ev) σ = (Ok (), σ')
    ∧ calls σ' = calls σ ++
        [CanTheStepBeDisplayed a; GetDatasFromCache [str a]; Render a datas true]
    ∧ Router.currentRoute (this σ') = str a
    ∧ Router.previousRoute (this σ') = previous
    ∧ Router.stepCreated (this σ') = false
    ∧ Router.applicationReady (this σ') = true
    ∧ redirect_pending (this σ') = false.
Proof.
  destruct σ as [[o rn sc ar [[[]|] mprev] cur prev h] w cs];
    cbv zeta; unfold resolved_previousRoute;
    cbn [this window calls Router.options redirect_pending Router.stepCreated
         default Router.stepRedirected Redirected.redirect Redirected.previousRoute];
    intros Hhash HstepA Hcan Hallowed Hprev -> Hcache Hdatas Hrender.
  all: unfold hashChanged, getRoute; msimpl; rewrite Hhash.
  all: erewrite gate_registered by exact HstepA; rewrite Hcan; msimpl.
  all: rewrite Hallowed; unfold stepCanBeDisplayed; msimpl; rewrite Hprev; msimpl.
  all: erewrite createStep_returns
         by (exact HstepA || exact Hcache || exact Hdatas || exact Hrender);
       msimpl.
  all: eexists; split; [reflexivity|]; msimpl.
  all: by rewrite <- !app_assoc.
Qed.

Lemma first_transition_creates_witness :
  ∃ σ',
    hashChanged (event "http://x/") (run [Init] (fresh abc ""))
    = (Ok (), σ')
    ∧ calls σ' = calls (run [Init] (fresh abc "")) ++
        [CanTheStepBeDisplayed "a"; GetDatasFromCache [str "a"];
         Render "a" null true]
    ∧ Router.currentRoute (this σ') = str "a"
    ∧ Router.previousRoute (this σ') = undefined
    ∧ Router.stepCreated (this σ') = false
    ∧ Router.applicationReady (this σ') = true
    ∧ redirect_pending (this σ') = false.
Proof.
  apply (first_transition_creates
           (run [Init] (fresh abc "")) (Event.mk (str "http://x/")) "a"
           (plain_step "a") (Datas.mk true undefined) None null);
    by vm_compute.
Defined.

(** X12 - a [destroy] that throws stops the transition: the new step is
    not rendered, the error reaches the caller of the handler, and the
    router is left between two steps, with [currentRoute] and
    [previousRoute] already written and [stepCreated], [applicationReady]
    and the redirect marker as they were. *)
Theorem destroy_failure_stops_transition
    (σ : State) (ev : Event.t) (a : string) (stepA previousStep : Step.t)
    (d : Datas.t) (err : error) :
  let o := Router.options (this σ) in
  let previous := resolved_previousRoute (this σ) (Some ev) in
  substr1 (Window.hash (window σ)) = a →
  steps_get o (str a) = Some stepA →
  Step.canTheStepBeDisplayed stepA = Ok d →
  Datas.canBeDisplayed d = true →
  truthy previous = true →
  steps_get o previous = Some previousStep →
  Step.destroy previousStep = Throw err →
  hashChanged (Some ev) σ
  = (Throw err,
     mkState
       (Router.set_previousRoute previous
          (Router.set_currentRoute (str a) (this σ)))
       (window σ)
       (calls σ ++ [CanTheStepBeDisplayed a; Destroy (ToString previous) false])).
Proof.
  destruct σ as [[o rn sc ar [[[]|] mprev] cur prev h] w cs];
    cbv zeta; unfold resolved_previousRoute;
    cbn [this window calls Router.options redirect_pending default from_option id
         Router.stepRedirected Redirected.redirect Redirected.previousRoute];
    intros Hhash HstepA Hcan Hallowed Hprev HprevStep Hdestroy.
  all: unfold hashChanged, getRoute; msimpl; rewrite Hhash.
  all: erewrite gate_registered by exact HstepA; rewrite Hcan; msimpl.
  all: rewrite Hallowed; unfold stepCanBeDisplayed, destroyStep; msimpl.
  all: cbn [id]; rewrite Hprev; msimpl; rewrite HprevStep, Hdestroy; msimpl.
  all: by rewrite <- !app_assoc.
Qed.

Lemma destroy_failure_stops_transition_witness :
  let failing :=
    Options.mk (str "a") ["a"; "b"]
      (list_to_map
         [("a", Step.mk (str "a") undefined (Ok (Datas.mk true undefined))
                  (λ _, Ok ()) (Throw StepError));
          ("b", plain_step "b")])
      (λ _, Ok None) in
  let σ := run [Init; TriggerNext] (fresh failing "#a") in
  fst (hashChanged (event "http://x/#a") σ) = Throw StepError
  ∧ calls (snd (hashChanged (event "http://x/#a") σ))
    = calls σ ++ [CanTheStepBeDisplayed "b"; Destroy "a" false].
Proof.
  intros failing σ. unfold event.
  rewrite (destroy_failure_stops_transition σ (Event.mk (str "http://x/#a")) "b"
             (plain_step "b")
             (Step.mk (str "a") undefined (Ok (Datas.mk true undefined))
                (λ _, Ok ()) (Throw StepError))
             (Datas.mk true undefined) StepError);
    by vm_compute.
Defined.

(** X13 - a gate that throws (the candidate's [canTheStepBeDisplayed]
    throws, or the previous route of an unknown candidate is not
    registered) ends the handler at once: the error is passed on, and the
    router object and the window are untouched; in particular
    [currentRoute] is not moved to the new route. *)
Theorem gate_failure_leaves_router
    (σ : State) (e : option Event.t) (err : error) :
  fst (checkIfTheStepCanBeDisplay (substr1 (Window.hash (window σ))) e σ)
    = Throw err →
  fst (hashChanged e σ) = Throw err
  ∧ this (snd (hashChanged e σ)) = this σ
  ∧ window (snd (hashChanged e σ)) = window σ.
Proof.
  intros Hgate. unfold hashChanged, getRoute. msimpl.
  destruct (checkIfTheStepCanBeDisplay _ e σ) as [res σ1] eqn:Hcheck.
  simpl in Hgate. subst res. msimpl.
  by destruct (gate_frame _ _ _ _ _ Hcheck) as (-> & -> & _).
Qed.

Lemma gate_failure_leaves_router_witness :
  fst (hashChanged (event "http://x/#yyy") (fresh abc "#zzz")) = Throw TypeError
  ∧ this (snd (hashChanged (event "http://x/#yyy") (fresh abc "#zzz")))
    = this (fresh abc "#zzz")
  ∧ window (snd (hashChanged (event "http://x/#yyy") (fresh abc "#zzz")))
    = window (fresh abc "#zzz").
Proof.
  apply (gate_failure_leaves_router (fresh abc "#zzz")
           (event "http://x/#yyy") TypeError).
  by vm_compute.
Defined.

Lemma bind_Ok {A B} (m : M A) (f : A → M B) (σ σ' : State) (b : B) :
  (m ≫= f) σ = (Ok b, σ') →
  ∃ a σ1, m σ = (Ok a, σ1) ∧ f a σ1 = (Ok b, σ').
Proof.
  unfold mbind, M_bind. destruct (m σ) as [[a|e] σ1]; [eauto | done].
Qed.

Lemma snd_bind_Ok {A B} (m : M A) (f : A → M B) (σ σ1 : State) (a : A) :
  m σ = (Ok a, σ1) → snd ((m ≫= f) σ) = snd (f a σ1).
Proof. intros Hm. unfold mbind, M_bind. by rewrite Hm. Qed.

(** An allowed transition that runs to its end leaves no redirect
    pending. *)
Lemma stepCanBeDisplayed_resets_marker (e : option Event.t) (σ σ' : State) :
  stepCanBeDisplayed e σ = (Ok (), σ') → redirect_pending (this σ') = false.
Proof.
  unfold stepCanBeDisplayed. intros Hrun.
  apply bind_Ok in Hrun as (_ & σ1 & _ & Hrun).
  apply bind_Ok in Hrun as (r1 & σ2 & _ & Hrun).
  apply bind_Ok in Hrun as (_ & σ3 & _ & Hrun).
  apply bind_Ok in Hrun as (r3 & σ4 & Hget & Hrun).
  injection Hget as <- <-.
  destruct (redirect_pending (this σ3)) eqn:Hpending; simpl in Hrun.
  - by injection Hrun as <-.
  - by injection Hrun as <-.
Qed.

(** X14 - after a handler run that returns, a redirect is pending exactly
    when the gate rejected the route: a rejection sets the marker, and an
    allowed transition that completes resets it. *)
Theorem redirect_pending_iff_rejected (σ : State) (e : option Event.t) :
  fst (hashChanged e σ) = Ok () →
  ∃ d,
    fst (checkIfTheStepCanBeDisplay (substr1 (Window.hash (window σ))) e σ)
      = Ok d
    ∧ redirect_pending (this (snd (hashChanged e σ)))
      = negb (Datas.canBeDisplayed d).
Proof.
  unfold hashChanged, getRoute. msimpl.
  destruct (checkIfTheStepCanBeDisplay _ e σ) as [[d|err] σ1]; msimpl; [|done].
  intros Hrun. exists d. split; [done|].
  destruct (Datas.canBeDisplayed d); simpl.
  - destruct (stepCanBeDisplayed e _) as [[[]|] σ'] eqn:Hcan; [|done].
    by apply stepCanBeDisplayed_resets_marker in Hcan.
  - unfold stepCantBeDisplayed, setRoute. msimpl.
    by destruct (truthy (Datas.fallbackRoute d)).
Qed.

Lemma redirect_pending_iff_rejected_witness :
  ∃ d,
    fst (checkIfTheStepCanBeDisplay
           (substr1 (Window.hash (window (run [Init; Location "#zzz"] (fresh abc "#a")))))
           (event "http://x/#a")
           (run [Init; Location "#zzz"] (fresh abc "#a")))
      = Ok d
    ∧ redirect_pending
        (this (snd (hashChanged (event "http://x/#a")
                      (run [Init; Location "#zzz"] (fresh abc "#a")))))
      = negb (Datas.canBeDisplayed d).
Proof.
  apply (redirect_pending_iff_rejected
           (run [Init; Location "#zzz"] (fresh abc "#a")) (event "http://x/#a")).
  by vm_compute.
Defined.

(** X15 - an unknown route (one that names neither a registered step
    nor a member of [Object.prototype]) reached from a registered one: no
    step method is called (not even a [canTheStepBeDisplayed]); the
    fallback is the
    [fallbackRoute] property of the step of the previous route when that
    is truthy, else the default route; the handler records the unknown
    route as [currentRoute], sets the redirect marker with the previous
    route, clears [previousRoute], and writes the fallback to the location
    if it is truthy. *)
Theorem unknown_route_falls_back
    (σ : State) (e : option Event.t) (previousStep : Step.t) :
  let o := Router.options (this σ) in
  let route := substr1 (Window.hash (window σ)) in
  let fallbackRoute :=
    if truthy (Step.fallbackRoute previousStep)
    then Step.fallbackRoute previousStep
    else Options.defaultRoute o in
  steps_get o (str route) = None →
  inherited route = false →
  truthy (getPreviousRoute e) = true →
  steps_get o (getPreviousRoute e) = Some previousStep →
  hashChanged e σ
  = (Ok (),
     mkState
       (Router.set_previousRoute null
          (Router.set_stepRedirected
             (Redirected.mk (Some true) (getPreviousRoute e))
             (Router.set_currentRoute (str route) (this σ))))
       (if truthy fallbackRoute
        then Window.mk (hash_of fallbackRoute) (Window.listeners (window σ))
        else window σ)
       (calls σ ++ (if truthy fallbackRoute then [SetHash fallbackRoute] else []))).
Proof.
  intros o route fallbackRoute Hroute _ Hprev HprevStep.
  unfold hashChanged, getRoute. msimpl. fold route.
  rewrite (gate_unknown_previous_registered σ route e previousStep)
    by done.
  fold o fallbackRoute. msimpl.
  unfold stepCantBeDisplayed, setRoute.
  cbn [Datas.canBeDisplayed Datas.fallbackRoute]. msimpl.
  destruct (truthy fallbackRoute); msimpl; [done|].
  by rewrite app_nil_r.
Qed.

Lemma unknown_route_falls_back_witness :
  let with_fallback :=
    Options.mk (str "a") ["a"; "b"]
      (list_to_map
         [("a", plain_step "a");
          ("b", Step.mk (str "b") (str "b") (Ok (Datas.mk true undefined))
                  (λ _, Ok ()) (Ok ()))])
      (λ _, Ok None) in
  let σ := run [Init; Location "#zzz"] (fresh with_fallback "#b") in
  fst (hashChanged (event "http://x/#b") σ) = Ok ()
  ∧ calls (snd (hashChanged (event "http://x/#b") σ))
    = calls σ ++ [SetHash (str "b")]
  ∧ Window.hash (window (snd (hashChanged (event "http://x/#b") σ))) = "#b".
Proof.
  intros with_fallback σ.
  rewrite (unknown_route_falls_back σ (event "http://x/#b")
             (Step.mk (str "b") (str "b") (Ok (Datas.mk true undefined))
                (λ _, Ok ()) (Ok ())));
    by vm_compute.
Defined.

(** ** [init] and [destroy] *)

(** X16 - [init] on a page without route: the handler is registered, the
    default route becomes [currentRoute] and is written to the location
    whatever it is (there is no truthiness test on this path, so the
    constructor's default [null] puts ["#null"] in the location), and no
    step method is called; the step is left to the [hashchange] that the
    write causes. *)
Theorem init_without_route (σ : State) :
  let h := S (foldr Nat.max 0%nat (Window.listeners (window σ))) in
  let defaultRoute := Options.defaultRoute (Router.options (this σ)) in
  substr1 (Window.hash (window σ)) = "" →
  init σ
  = (Ok (),
     mkState
       (Router.set_currentRoute defaultRoute
          (Router.set_onHashChanged (Some h) (this σ)))
       (Window.mk (hash_of defaultRoute) (Window.listeners (window σ) ++ [h]))
       (calls σ ++ [AddEventListener h; SetHash defaultRoute])).
Proof.
  intros h defaultRoute Hhash. unfold init, addEvents, getRoute, setRoute.
  msimpl. rewrite Hhash. simpl. msimpl. by rewrite <- app_assoc.
Qed.

Lemma init_without_route_witness :
  fst (init (fresh abc_no_default "")) = Ok ()
  ∧ calls (snd (init (fresh abc_no_default "")))
    = [AddEventListener 1; SetHash null]
  ∧ Window.hash (window (snd (init (fresh abc_no_default "")))) = "#null"
  ∧ Router.currentRoute (this (snd (init (fresh abc_no_default "")))) = null.
Proof.
  rewrite (init_without_route (fresh abc_no_default "")); by vm_compute.
Defined.

(** X17 - [init] on a page opened at a registered route that can be
    displayed: the handler is registered and the step of that route is
    rendered once, with nothing destroyed before; [stepCreated] stays
    [false] and the location is not written. *)
Theorem init_at_registered_route
    (options : Options.t) (hash a : string) (stepA : Step.t) (d : Datas.t)
    (stepDatas : option (gmap string value)) (datas : value) :
  substr1 hash = a →
  a ≠ "" →
  steps_get options (str a) = Some stepA →
  Step.canTheStepBeDisplayed stepA = Ok d →
  Datas.canBeDisplayed d = true →
  Options.getDatasFromCache options [str a] = Ok stepDatas →
  datas_of stepDatas (str a) = Ok datas →
  Step.render stepA datas = Ok () →
  init (fresh options hash)
  = (Ok (),
     mkState
       (Router.set_applicationReady true
          (Router.set_currentRoute (str a)
             (Router.set_onHashChanged (Some 1%nat) (constructor options))))
       (Window.mk hash [1%nat])
       [AddEventListener 1; CanTheStepBeDisplayed a;
        GetDatasFromCache [str a]; Render a datas true]).
Proof.
  intros Hhash Ha HstepA Hcan Hallowed Hcache Hdatas Hrender.
  apply String.eqb_neq in Ha.
  unfold init, addEvents, getRoute, fresh, constructor. msimpl.
  rewrite Hhash, Ha. unfold hashChanged, getRoute. msimpl. rewrite Hhash.
  erewrite gate_registered by exact HstepA. rewrite Hcan. msimpl.
  rewrite Hallowed. unfold stepCanBeDisplayed. msimpl.
  erewrite createStep_returns
    by (exact HstepA || exact Hcache || exact Hdatas || exact Hrender).
  by msimpl.
Qed.

Lemma init_at_registered_route_witness :
  fst (init (fresh abc "#b")) = Ok ()
  ∧ calls (snd (init (fresh abc "#b")))
    = [AddEventListener 1; CanTheStepBeDisplayed "b";
       GetDatasFromCache [str "b"]; Render "b" null true].
Proof.
  rewrite (init_at_registered_route abc "#b" "b" (plain_step "b")
             (Datas.mk true undefined) None null);
    by vm_compute.
Defined.

(** X18 - [init] on a page opened at an unknown route (one that names
    neither a registered step nor a member of [Object.prototype]): there
    is no event,
    hence no previous route to ask for a fallback; the router redirects to
    the default route if that is truthy and otherwise stays on the unknown
    route.  No step method is called, and the redirect marker remembers
    that there was no previous route. *)
Theorem init_at_unknown_route (options : Options.t) (hash route : string) :
  let defaultRoute := Options.defaultRoute options in
  substr1 hash = route →
  route ≠ "" →
  steps_get options (str route) = None →
  inherited route = false →
  init (fresh options hash)
  = (Ok (),
     mkState
       (Router.set_previousRoute null
          (Router.set_stepRedirected (Redirected.mk (Some true) null)
             (Router.set_currentRoute (str route)
                (Router.set_onHashChanged (Some 1%nat) (constructor options)))))
       (Window.mk (if truthy defaultRoute then hash_of defaultRoute else hash)
          [1%nat])
       (AddEventListener 1
          :: (if truthy defaultRoute then [SetHash defaultRoute] else []))).
Proof.
  intros defaultRoute Hhash Hroute Hstep _. apply String.eqb_neq in Hroute.
  unfold init, addEvents, getRoute, fresh, constructor. msimpl.
  rewrite Hhash, Hroute. unfold hashChanged, getRoute. msimpl. rewrite Hhash.
  erewrite gate_unknown_no_previous by (exact Hstep || reflexivity).
  msimpl. cbn [Datas.canBeDisplayed Datas.fallbackRoute].
  unfold stepCantBeDisplayed, setRoute. msimpl. fold defaultRoute.
  by destruct (truthy defaultRoute).
Qed.

Lemma init_at_unknown_route_witness :
  calls (snd (init (fresh abc "#zzz"))) = [AddEventListener 1; SetHash (str "a")]
  ∧ Window.hash (window (snd (init (fresh abc "#zzz")))) = "#a"
  ∧ calls (snd (init (fresh abc_no_default "#zzz"))) = [AddEventListener 1]
  ∧ Window.hash (window (snd (init (fresh abc_no_default "#zzz")))) = "#zzz".
Proof.
  rewrite (init_at_unknown_route abc "#zzz" "zzz") by by vm_compute.
  rewrite (init_at_unknown_route abc_no_default "#zzz" "zzz") by by vm_compute.
  by vm_compute.
Defined.

Lemma handle_is_fresh (listeners : list nat) (x : nat) :
  x ∈ listeners → (x < S (foldr Nat.max 0 listeners))%nat.
Proof.
  induction listeners as [|y listeners IH]; [by intros ?%elem_of_nil|].
  intros [-> | Hx]%elem_of_cons; simpl; [lia|]. specialize (IH Hx). lia.
Qed.

Lemma remove_fresh_handle (listeners : list nat) (h : nat) :
  (∀ x, x ∈ listeners → (x < h)%nat) →
  filter (λ x, Some x ≠ Some h) (listeners ++ [h]) = listeners.
Proof.
  intros Hfresh. rewrite filter_app.
  rewrite (filter_cons_False _ h) by (intros Hh; by apply Hh).
  rewrite filter_nil, app_nil_r.
  induction listeners as [|x listeners IH]; [done|].
  rewrite filter_cons_True.
  - f_equal. apply IH. intros y Hy. apply Hfresh. by right.
  - intros [= ->]. assert (h < h)%nat as Hh by (apply Hfresh; by left). lia.
Qed.

(** [init] registers exactly one handler, a fresh one, whichever way it
    goes on and whether or not it throws. *)
Lemma init_registers (σ : State) :
  let h := S (foldr Nat.max 0%nat (Window.listeners (window σ))) in
  Window.listeners (window (snd (init σ))) = Window.listeners (window σ) ++ [h]
  ∧ Router.onHashChanged (this (snd (init σ))) = Some h.
Proof.
  intros h. unfold init.
  rewrite (snd_bind_Ok addEvents _ σ
             (mkState (Router.set_onHashChanged (Some h) (this σ))
                (Window.mk (Window.hash (window σ))
                   (Window.listeners (window σ) ++ [h]))
                (calls σ ++ [AddEventListener h])) ()) by done.
  match goal with
  | |- context [snd (?tail ?σ1)] =>
      assert (stable
                (λ σ', Window.listeners (window σ')
                       = Window.listeners (window σ) ++ [h]
                       ∧ Router.onHashChanged (this σ') = Some h) tail) as Htail
  end.
  { unfold hashChanged, checkIfTheStepCanBeDisplay, stepCanBeDisplayed,
      stepCantBeDisplayed, createStep, destroyStep. stable_method. }
  by apply Htail.
Qed.

(** X19 - [destroy] removes the handler that [init] registered and
    nothing else: after [init] then [destroy] the window has the listeners
    it had before; after two [init]s, one [destroy] unregisters the second
    handler only, the first one stays on the window; and a second
    [destroy] finds nothing to remove. *)
Theorem destroy_removes_own_listener (σ : State) :
  Window.listeners (window (run [Init; Teardown] σ))
    = Window.listeners (window σ)
  ∧ Window.listeners (window (run [Init; Init; Teardown] σ))
    = Window.listeners (window σ)
      ++ [S (foldr Nat.max 0%nat (Window.listeners (window σ)))]
  ∧ window (run [Teardown; Teardown] σ) = window (run [Teardown] σ).
Proof.
  assert (∀ σ0, Window.listeners (window (run [Init; Teardown] σ0))
                = Window.listeners (window σ0)) as Hpair.
  { intros σ0. destruct (init_registers σ0) as [Hlisteners Hhandler].
    simpl. unfold destroy. msimpl. rewrite Hlisteners, Hhandler.
    apply remove_fresh_handle, handle_is_fresh. }
  split; [apply Hpair|]. split.
  - change (run [Init; Init; Teardown] σ)
      with (run [Init; Teardown] (run [Init] σ)).
    rewrite Hpair. simpl. apply init_registers.
  - simpl. unfold destroy. msimpl. f_equal.
    induction (Window.listeners (window σ)) as [|x l IH]; [done|].
    destruct (decide (Some x ≠ Router.onHashChanged (this σ))) as [Hx|Hx].
    + rewrite !filter_cons_True by done. by rewrite IH.
    + by rewrite !filter_cons_False.
Qed.

(** ** A trigger and the handler run that follows *)

Lemma substr1_hash_of (v : value) :
  substr1 (hash_of v) = drop_leading_hash (ToString v).
Proof.
  change (hash_of v)
    with (if String.eqb (drop_leading_hash (ToString v)) ""
          then EmptyString
          else String "#"%char (drop_leading_hash (ToString v))).
  by destruct (String.eqb_spec (drop_leading_hash (ToString v)) "") as [-> | _].
Qed.

(** X20 - going forward end to end.  On a well-formed registry, with the
    current route [a] followed by [b], a route made of characters that the
    location keeps as written, and no redirect pending,
    [triggerNext] and then the handler run for the resulting [hashchange]
    (whose [oldURL] points at [a]) write [b] to the location, destroy the
    step of [a], render the step of [b], and leave [currentRoute = b],
    [previousRoute = a], [reverseNavigation = false]; provided
    [canTheStepBeDisplayed] of [b] allows it and the methods return. *)
Theorem triggerNext_then_hashChanged
    (σ : State) (i : nat) (a b : string) (ev : Event.t)
    (stepA stepB : Step.t) (d : Datas.t)
    (stepDatas : option (gmap string value)) (datas : value) :
  let o := Router.options (this σ) in
  registry_wf o →
  Options.stepsOrder o !! i = Some a →
  Options.stepsOrder o !! S i = Some b →
  Router.currentRoute (this σ) = str a →
  redirect_pending (this σ) = false →
  getPreviousRoute (Some ev) = str a →
  truthy (str a) = true →
  written_verbatim b = true →
  drop_leading_hash b = b →
  steps_get o (str a) = Some stepA →
  Step.destroy stepA = Ok () →
  steps_get o (str b) = Some stepB →
  Step.canTheStepBeDisplayed stepB = Ok d →
  Datas.canBeDisplayed d = true →
  Options.getDatasFromCache o [str b] = Ok stepDatas →
  datas_of stepDatas (str b) = Ok datas →
  Step.render stepB datas = Ok () →
  ∃ σ', (triggerNext ≫= λ _, hashChanged (Some ev)) σ = (Ok (), σ')
    ∧ calls σ' = calls σ ++
        [SetHash (str b); CanTheStepBeDisplayed b; Destroy a true;
         GetDatasFromCache [str b]; Render b datas true]
    ∧ Window.hash (window σ') = hash_of (str b)
    ∧ Router.currentRoute (this σ') = str b
    ∧ Router.previousRoute (this σ') = str a
    ∧ Router.reverseNavigation (this σ') = false
    ∧ Router.stepCreated (this σ') = true.
Proof.
  destruct σ as [[o rn sc ar [[[]|] mprev] cur prev h] w cs];
    cbv zeta;
    cbn [this window calls Router.options redirect_pending default from_option id
         Router.currentRoute Router.stepRedirected Redirected.redirect
         Redirected.previousRoute];
    intros Hwf Ha Hb -> Hpending Hev Htruthy _ Hdrop HstepA Hdestroy
      HstepB Hcan Hallowed Hcache Hdatas Hrender;
    try discriminate Hpending.
  all: assert (strict_ne (str b) (str "end") = true) as Hne
         by (unfold strict_ne, strict_eq; rewrite bool_decide_eq_false_2; [done|];
             intros [= ->]; destruct Hwf as (_ & _ & _ & Hend);
             apply Hend; by eapply list_elem_of_lookup_2).
  all: unfold triggerNext, setRoute; msimpl.
  all: rewrite (getNextStepRoute_interior o i a b Hwf Ha Hb), Hne; msimpl.
  all: unfold hashChanged, getRoute; msimpl.
  all: rewrite substr1_hash_of; cbn [ToString]; rewrite Hdrop.
  all: erewrite gate_registered by exact HstepB; rewrite Hcan; msimpl.
  all: rewrite Hallowed; unfold stepCanBeDisplayed; msimpl; cbn [id].
  all: rewrite Hev, Htruthy.
  all: erewrite destroyStep_returns by (exact HstepA || exact Hdestroy); msimpl.
  all: erewrite createStep_returns
         by (exact HstepB || exact Hcache || exact Hdatas || exact Hrender);
       msimpl.
  all: eexists; split; [reflexivity|]; msimpl.
  all: by rewrite <- !app_assoc.
Qed.

Lemma triggerNext_then_hashChanged_witness :
  ∃ σ',
    (triggerNext ≫= λ _, hashChanged (event "http://x/#a"))
      (run [Init] (fresh abc "#a"))
    = (Ok (), σ')
    ∧ calls σ' = calls (run [Init] (fresh abc "#a")) ++
        [SetHash (str "b"); CanTheStepBeDisplayed "b"; Destroy "a" true;
         GetDatasFromCache [str "b"]; Render "b" null true]
    ∧ Window.hash (window σ') = hash_of (str "b")
    ∧ Router.currentRoute (this σ') = str "b"
    ∧ Router.previousRoute (this σ') = str "a"
    ∧ Router.reverseNavigation (this σ') = false
    ∧ Router.stepCreated (this σ') = true.
Proof.
  apply (triggerNext_then_hashChanged (run [Init] (fresh abc "#a")) 0 "a" "b"
           (Event.mk (str "http://x/#a")) (plain_step "a") (plain_step "b")
           (Datas.mk true undefined) None null);
    first [by apply (bool_decide_unpack _) | by vm_compute].
Defined.

(** X21 - going back from the first step.  [triggerPrevious] writes the
    sentinel ["end"] to the location; for the handler run that follows,
    ["end"] is an unknown route reached from the first route, so the
    router redirects to the first step's [fallbackRoute], or to the
    default route, if there is one.  The step on screen is neither
    destroyed nor rendered again, [currentRoute] is left at ["end"], and
    [reverseNavigation] stays [true]. *)
Theorem triggerPrevious_at_first_bounces
    (σ : State) (first : string) (e : option Event.t) (firstStep : Step.t) :
  let o := Router.options (this σ) in
  let fallbackRoute :=
    if truthy (Step.fallbackRoute firstStep)
    then Step.fallbackRoute firstStep
    else Options.defaultRoute o in
  Options.stepsOrder o !! 0%nat = Some first →
  Router.currentRoute (this σ) = str first →
  Options.steps o !! "undefined" = None →
  steps_get o (str "end") = None →
  getPreviousRoute e = str first →
  truthy (str first) = true →
  steps_get o (str first) = Some firstStep →
  (triggerPrevious ≫= λ _, hashChanged e) σ
  = (Ok (),
     mkState
       (Router.set_previousRoute null
          (Router.set_stepRedirected (Redirected.mk (Some true) (str first))
             (Router.set_currentRoute (str "end")
                (Router.set_previousRoute (str first)
                   (Router.set_reverseNavigation true (this σ))))))
       (Window.mk (if truthy fallbackRoute then hash_of fallbackRoute else "#end")
          (Window.listeners (window σ)))
       (calls σ ++ SetHash (str "end")
          :: (if truthy fallbackRoute then [SetHash fallbackRoute] else []))).
Proof.
  intros o fallbackRoute Hfirst Hcurrent Hundef Hend Hev Htruthy HfirstStep.
  unfold triggerPrevious, setRoute. msimpl. rewrite Hcurrent. fold o.
  rewrite (getPreviousStepRoute_first o first Hfirst Hundef).
  unfold hashChanged, getRoute. msimpl.
  change (substr1 (hash_of (str "end"))) with "end".
  erewrite gate_unknown_previous_registered;
    [|exact Hend|by rewrite Hev|rewrite Hev; exact HfirstStep].
  cbn [this Router.options Router.set_previousRoute Router.set_reverseNavigation].
  fold o fallbackRoute. msimpl.
  cbn [Datas.canBeDisplayed Datas.fallbackRoute].
  unfold stepCantBeDisplayed, setRoute. msimpl. rewrite Hev.
  destruct (truthy fallbackRoute); msimpl; by rewrite <- ?app_assoc.
Qed.

Lemma triggerPrevious_at_first_bounces_witness :
  fst ((triggerPrevious ≫= λ _, hashChanged (event "http://x/#a"))
         (run [Init] (fresh abc "#a"))) = Ok ()
  ∧ calls (snd ((triggerPrevious ≫= λ _, hashChanged (event "http://x/#a"))
                  (run [Init] (fresh abc "#a"))))
    = calls (run [Init] (fresh abc "#a"))
      ++ [SetHash (str "end"); SetHash (str "a")]
  ∧ Window.hash
      (window (snd ((triggerPrevious ≫= λ _, hashChanged (event "http://x/#a"))
                      (run [Init] (fresh abc "#a"))))) = "#a".
Proof.
  rewrite (triggerPrevious_at_first_bounces (run [Init] (fresh abc "#a")) "a"
             (event "http://x/#a") (plain_step "a"));
    by vm_compute.
Defined.

(** ** One transition, at most one destroy and one render *)

(** Split on the next undecided test of the method being run. *)
Ltac split_case :=
  match goal with
  | |- context [match ?x with _ => _ end] =>
      lazymatch type of x with
      | bool => destruct x eqn:?
      | option _ => destruct x eqn:?
      | Res _ => destruct x eqn:?
      end
  end.

Ltac pick_shape :=
  first
    [ left; reflexivity
    | right; left; eexists _, _; reflexivity
    | right; right; left; eexists _, _; reflexivity
    | right; right; right; eexists _, _, _; reflexivity ].

(** X22 - whatever the state, the event, the registry and the behaviour
    of the steps, one run of the [hashchange] handler calls [destroy] at
    most once and [render] at most once; a [render] is always for the
    route that is in the location; and when both happen, the [destroy]
    comes first and has returned. *)
Theorem one_destroy_one_render (e : option Event.t) (σ : State) :
  let route := substr1 (Window.hash (window σ)) in
  let lifecycle := List.filter lifecycle_call (new_calls (hashChanged e) σ) in
  lifecycle = []
  ∨ (∃ p b, lifecycle = [Destroy p b])
  ∨ (∃ d b, lifecycle = [Render route d b])
  ∨ (∃ p d b, lifecycle = [Destroy p true; Render route d b]).
Proof.
  destruct σ as [[o rn sc ar [redirect mprev] cur prev h] w cs].
  cbv zeta.
  unfold new_calls, hashChanged, getRoute, checkIfTheStepCanBeDisplay,
    stepCanBeDisplayed, stepCantBeDisplayed, createStep, destroyStep, setRoute.
  msimpl.
  repeat (split_case; msimpl; cbn [id ToString]).
  all: rewrite <- ?app_assoc, ?drop_app_length.
  all: try (replace (drop (length cs) cs) with (@nil call)
              by (by rewrite drop_all)).
  all: cbn [List.filter lifecycle_call app].
  all: pick_shape.
Qed.

(** ** [createStep] on what is missing *)

(** X23 - [createStep] reads the cache first, then looks for the step:
    for a route without registered step, or when the cache answers with an
    object that has no entry for the route, it throws a [TypeError] before
    any [render], and leaves the router as it was. *)
Theorem createStep_missing_step_or_entry
    (route : value) (σ : State) (stepDatas : option (gmap string value)) :
  let o := Router.options (this σ) in
  Options.getDatasFromCache o [route] = Ok stepDatas →
  steps_get o route = None ∨ datas_of stepDatas route = Throw TypeError →
  createStep route σ
  = (Throw TypeError,
     mkState (this σ) (window σ) (calls σ ++ [GetDatasFromCache [route]])).
Proof.
  intros o Hcache Hmissing. unfold createStep. msimpl. fold o. rewrite Hcache.
  destruct (steps_get o route) as [step|] eqn:Hstep; msimpl.
  - destruct Hmissing as [|Hentry]; [done|]. by rewrite Hentry.
  - done.
Qed.

Lemma createStep_missing_step_or_entry_witness :
  let cached :=
    Options.mk (str "a") ["a"] (list_to_map [("a", plain_step "a")])
      (λ _, Ok (Some ∅)) in
  fst (createStep (str "zzz") (fresh abc "#a")) = Throw TypeError
  ∧ calls (snd (createStep (str "zzz") (fresh abc "#a")))
    = [GetDatasFromCache [str "zzz"]]
  ∧ fst (createStep (str "a") (fresh cached "#a")) = Throw TypeError
  ∧ calls (snd (createStep (str "a") (fresh cached "#a")))
    = [GetDatasFromCache [str "a"]].
Proof.
  intros cached.
  rewrite (createStep_missing_step_or_entry (str "zzz") (fresh abc "#a") None)
    by (reflexivity || (left; by vm_compute)).
  rewrite (createStep_missing_step_or_entry (str "a") (fresh cached "#a") (Some ∅))
    by (reflexivity || (right; by vm_compute)).
  by vm_compute.
Defined.

(** X24 - a [render] that throws after the destroy: the previous step
    has been destroyed and stays so, the error reaches the caller of the
    handler, and neither [stepCreated] nor [applicationReady] is set, nor
    is a pending redirect marker reset. *)
Theorem render_failure_after_destroy
    (σ : State) (ev : Event.t) (a : string) (stepA previousStep : Step.t)
    (d : Datas.t) (stepDatas : option (gmap string value)) (datas : value)
    (err : error) :
  let o := Router.options (this σ) in
  let previous := resolved_previousRoute (this σ) (Some ev) in
  substr1 (Window.hash (window σ)) = a →
  steps_get o (str a) = Some stepA →
  Step.canTheStepBeDisplayed stepA = Ok d →
  Datas.canBeDisplayed d = true →
  truthy previous = true →
  steps_get o previous = Some previousStep →
  Step.destroy previousStep = Ok () →
  Options.getDatasFromCache o [str a] = Ok stepDatas →
  datas_of stepDatas (str a) = Ok datas →
  Step.render stepA datas = Throw err →
  hashChanged (Some ev) σ
  = (Throw err,
     mkState
       (Router.set_previousRoute previous
          (Router.set_currentRoute (str a) (this σ)))
       (window σ)
       (calls σ ++
          [CanTheStepBeDisplayed a; Destroy (ToString previous) true;
           GetDatasFromCache [str a]; Render a datas false])).
Proof.
  destruct σ as [[o rn sc ar [[[]|] mprev] cur prev h] w cs];
    cbv zeta; unfold resolved_previousRoute;
    cbn [this window calls Router.options redirect_pending default from_option id
         Router.stepRedirected Redirected.redirect Redirected.previousRoute];
    intros Hhash HstepA Hcan Hallowed Hprev HprevStep Hdestroy
      Hcache Hdatas Hrender.
  all: unfold hashChanged, getRoute; msimpl; rewrite Hhash.
  all: erewrite gate_registered by exact HstepA; rewrite Hcan; msimpl.
  all: rewrite Hallowed; unfold stepCanBeDisplayed; msimpl; cbn [id].
  all: rewrite Hprev.
  all: erewrite destroyStep_returns by (exact HprevStep || exact Hdestroy); msimpl.
  all: unfold createStep; msimpl; rewrite Hcache, HstepA, Hdatas, Hrender; msimpl.
  all: by rewrite <- !app_assoc.
Qed.

Lemma render_failure_after_destroy_witness :
  let failing :=
    Options.mk (str "a") ["a"; "b"]
      (list_to_map
         [("a", plain_step "a");
          ("b", Step.mk (str "b") undefined (Ok (Datas.mk true undefined))
                  (λ _, Throw StepError) (Ok ()))])
      (λ _, Ok None) in
  let σ := run [Init; TriggerNext] (fresh failing "#a") in
  fst (hashChanged (event "http://x/#a") σ) = Throw StepError
  ∧ calls (snd (hashChanged (event "http://x/#a") σ))
    = calls σ ++ [CanTheStepBeDisplayed "b"; Destroy "a" true;
                  GetDatasFromCache [str "b"]; Render "b" null false]
  ∧ Router.stepCreated (this (snd (hashChanged (event "http://x/#a") σ))) = false.
Proof.
  intros failing σ. unfold event.
  rewrite (render_failure_after_destroy σ (Event.mk (str "http://x/#a")) "b"
             (Step.mk (str "b") undefined (Ok (Datas.mk true undefined))
                (λ _, Throw StepError) (Ok ()))
             (plain_step "a") (Datas.mk true undefined) None null StepError);
    by vm_compute.
Defined.
